(** * Azure-AI-Tradutor-Artigos: a shallow embedding of the two translators

    The repository holds two command-line pipelines:
    - [tradutor_artigos.py] translates a .docx file paragraph by paragraph
      through the Azure Translator Text API;
    - [translate_url.py] fetches a web page, cleans its text and asks an
      Azure OpenAI deployment for a Markdown translation.

    Python strings are sequences of Unicode code points; they are modelled as
    lists of code points.  Every call into the outside world (file system,
    HTTP, python-docx, the chat client, [urlparse]) is a parameter of the
    model, and the run of a script is a function on an explicit state that
    records the requests made, the files written and the lines printed.
    Calls to [logger] only write to the log stream and are not modelled;
    [argparse] is not modelled either: [main] starts from the parsed
    arguments. *)

From Stdlib Require Import ZArith NArith Ascii String.
From stdpp Require Import base option list gmap.

(** ** Python strings *)

Module Py.

Abbreviation char := N (only parsing).
Abbreviation str := (list N) (only parsing).

(** A string literal of the source, as a list of code points (ASCII only). *)
Definition lit (s : string) : str :=
  N_of_ascii <$> list_ascii_of_string s.

(** [bool(s)] for a string: the empty string is falsy. *)
Definition truthy (s : str) : bool :=
  match s with [] => false | _ :: _ => true end.

(** [bool(o)] for an optional string ([None] or [""] is falsy). *)
Definition truthy_opt (o : option str) : bool :=
  match o with None => false | Some s => truthy s end.

(** [str.isspace] on one code point: the characters that the argument-less
    [str.strip] removes. *)
Definition isspace (c : char) : bool :=
  ((9 <=? c) && (c <=? 13))%N || ((28 <=? c) && (c <=? 32))%N
  || (c =? 133)%N || (c =? 160)%N || (c =? 5760)%N
  || ((8192 <=? c) && (c <=? 8202))%N
  || (c =? 8232)%N || (c =? 8233)%N || (c =? 8239)%N || (c =? 8287)%N
  || (c =? 12288)%N.

(** The line boundaries of [str.splitlines]. *)
Definition islinebreak (c : char) : bool :=
  ((10 <=? c) && (c <=? 13))%N || ((28 <=? c) && (c <=? 30))%N
  || (c =? 133)%N || (c =? 8232)%N || (c =? 8233)%N.

Fixpoint lstrip_with (p : char -> bool) (s : str) : str :=
  match s with
  | [] => []
  | c :: s' => if p c then lstrip_with p s' else s
  end.

Definition rstrip_with (p : char -> bool) (s : str) : str :=
  reverse (lstrip_with p (reverse s)).

Definition strip_with (p : char -> bool) (s : str) : str :=
  rstrip_with p (lstrip_with p s).

(** [s.strip()] *)
Definition strip (s : str) : str := strip_with isspace s.

(** [s.strip(chars)] and [s.rstrip(chars)] *)
Definition strip_chars (chars s : str) : str :=
  strip_with (fun c => bool_decide (c ∈ chars)) s.

Definition rstrip_chars (chars s : str) : str :=
  rstrip_with (fun c => bool_decide (c ∈ chars)) s.

(** [s.replace(a, b)] for one-character [a] and [b]. *)
Definition replace1 (a b : char) (s : str) : str :=
  (fun c => if (c =? a)%N then b else c) <$> s.

(** [sep.join(l)] *)
Fixpoint join (sep : str) (l : list str) : str :=
  match l with
  | [] => []
  | [x] => x
  | x :: l' => x ++ sep ++ join sep l'
  end.

(** [s.splitlines()]: [cur] holds the current line, reversed.  A line is
    emitted at every boundary; the text after the last boundary is a line
    only when it is not empty; "\r\n" is one boundary. *)
Fixpoint splitlines_from (cur s : str) : list str :=
  match s with
  | [] => match cur with [] => [] | _ :: _ => [reverse cur] end
  | c :: s' =>
      if islinebreak c then
        reverse cur ::
          match s' with
          | c' :: s'' =>
              if ((c =? 13) && (c' =? 10))%N then splitlines_from [] s''
              else splitlines_from [] s'
          | [] => splitlines_from [] s'
          end
      else splitlines_from (c :: cur) s'
  end.

Definition splitlines (s : str) : list str := splitlines_from [] s.

(** [s.split(sep)] for a two-character separator [a b]: occurrences are
    taken left to right and do not overlap. *)
Fixpoint split2_from (a b : char) (cur s : str) : list str :=
  match s with
  | [] => [reverse cur]
  | c :: s' =>
      match s' with
      | c' :: s'' =>
          if ((c =? a) && (c' =? b))%N then reverse cur :: split2_from a b [] s''
          else split2_from a b (c :: cur) s'
      | [] => [reverse (c :: cur)]
      end
  end.

Definition split2 (a b : char) (s : str) : list str := split2_from a b [] s.

(** [s.split(sep)] for a one-character separator. *)
Fixpoint split1_from (a : char) (cur s : str) : list str :=
  match s with
  | [] => [reverse cur]
  | c :: s' =>
      if (c =? a)%N then reverse cur :: split1_from a [] s'
      else split1_from a (c :: cur) s'
  end.

Definition split1 (a : char) (s : str) : list str := split1_from a [] s.

(** [s.rfind(c)] for a one-character [c]: the last index of [c], or -1. *)
Fixpoint rfind_from (c : char) (i : Z) (found : Z) (s : str) : Z :=
  match s with
  | [] => found
  | x :: s' => rfind_from c (i + 1) (if (x =? c)%N then i else found) s'
  end.

Definition rfind (c : char) (s : str) : Z := rfind_from c 0 (-1) s.

(** Slices [s[:i]] and [s[i:]] for [0 <= i]. *)
Definition slice_to (i : Z) (s : str) : str := take (Z.to_nat i) s.
Definition slice_from (i : Z) (s : str) : str := drop (Z.to_nat i) s.

End Py.

Import Py.

(** ** Exceptions, results and the state-and-exception monad *)

(** The subclasses of [requests.RequestException] that the scripts can meet.
    [JSONDecodeError] is the one [Response.json] raises on a body that is not
    JSON (it derives from [RequestException] since requests 2.27). *)
Inductive request_exception :=
| Timeout
| ConnectionError
| HTTPError (status_code : Z)
| JSONDecodeError
| OtherRequestException (name : str).

(** The two [RuntimeError]s that [translate_url.py] raises itself. *)
Inductive runtime_msg :=
| FetchFailed (status_code : Z)
| MissingAzureConfig.

(** Python exceptions (all of them subclasses of [Exception]). *)
Inductive exn :=
| RequestException (r : request_exception)
| KeyError
| IndexError
| TypeError
| ValueError
| UnicodeEncodeError
| FileNotFoundError
| OSError
| RuntimeError (msg : runtime_msg)
| OtherException (name : str).

Inductive result (A : Type) :=
| Ok (a : A)
| Raise (e : exn).
Arguments Ok {A} a.
Arguments Raise {A} e.

Module Eff.

(** A computation that reads and updates a state [S] and either returns a
    value or raises; the state reached when it raises is kept. *)
Definition M (S A : Type) : Type := S -> result A * S.

Definition ret {S A} (a : A) : M S A := fun s => (Ok a, s).
Definition raise {S A} (e : exn) : M S A := fun s => (Raise e, s).
Definition lift {S A} (r : result A) : M S A := fun s => (r, s).
Definition bind {S A B} (m : M S A) (k : A -> M S B) : M S B :=
  fun s =>
    match m s with
    | (Ok a, s') => k a s'
    | (Raise e, s') => (Raise e, s')
    end.

End Eff.

Import Eff.

Notation "'let*' x ':=' m 'in' k" := (bind m (fun x => k))
  (at level 10, x pattern, m at level 100, k at level 200).
Notation "m1 ';;' m2" := (bind m1 (fun _ => m2))
  (at level 100, m2 at level 200, right associativity).

(** ** JSON values, as [Response.json] builds them *)

#[warnings="-register-all"]
Inductive json :=
| JNull
| JBool (b : bool)
| JNum (n : Z)       (* integer or not, a number behaves the same here *)
| JStr (s : str)
| JArr (items : list json)
| JObj (fields : list (str * json)).

(** [d[k]] on a [dict] given by its items. *)
Fixpoint dict_get (k : str) (fields : list (str * json)) : option json :=
  match fields with
  | [] => None
  | (k', v) :: rest => if bool_decide (k' = k) then Some v else dict_get k rest
  end.

(** [v[0]]: a list or string gives its first element or [IndexError]; a
    [dict] from JSON has only string keys, so key [0] is a [KeyError];
    [None], booleans and numbers are not subscriptable. *)
Definition getitem0 (v : json) : result json :=
  match v with
  | JArr (x :: _) => Ok x
  | JArr [] => Raise IndexError
  | JStr (c :: _) => Ok (JStr [c])
  | JStr [] => Raise IndexError
  | JObj _ => Raise KeyError
  | JNull | JBool _ | JNum _ => Raise TypeError
  end.

(** [v[k]] for a string key [k]: only a [dict] accepts it. *)
Definition getitem (k : str) (v : json) : result json :=
  match v with
  | JObj fields =>
      match dict_get k fields with
      | Some x => Ok x
      | None => Raise KeyError
      end
  | _ => Raise TypeError
  end.

Definition rbind {A B} (r : result A) (k : A -> result B) : result B :=
  match r with
  | Ok a => k a
  | Raise e => Raise e
  end.

(** ** os.path.splitext *)

Module OsPath.

(** The loop of [genericpath._splitext] that skips the leading dots of the
    file name: [n] is the number of iterations left, that is
    [dotIndex - filenameIndex].  It answers [true] when it meets a character
    that is not [extsep], which is where the source returns the split. *)
Fixpoint skip_leading_dots (n : nat) (p : str) (extsep : char)
    (filenameIndex : Z) : bool :=
  match n with
  | O => false
  | S n' =>
      if bool_decide (p !! Z.to_nat filenameIndex = Some extsep)
      then skip_leading_dots n' p extsep (filenameIndex + 1)
      else true
  end.

(** [genericpath._splitext(p, sep, altsep, extsep)] *)
Definition _splitext (p : str) (sep : char) (altsep : option char)
    (extsep : char) : str * str :=
  let sepIndex := rfind sep p in
  let sepIndex :=
    match altsep with
    | Some a => Z.max sepIndex (rfind a p)
    | None => sepIndex
    end in
  let dotIndex := rfind extsep p in
  if (sepIndex <? dotIndex)%Z
     && skip_leading_dots (Z.to_nat (dotIndex - (sepIndex + 1))) p extsep
          (sepIndex + 1)
  then (slice_to dotIndex p, slice_from dotIndex p)
  else (p, []).

(** [posixpath.splitext]: separator "/", no alternative separator,
    extension separator ".". *)
Definition splitext (p : str) : str * str := _splitext p 47%N None 46%N.

End OsPath.

(** ** tradutor_artigos.py *)

Module Tradutor.

(** The arguments of one [requests.post] call.  The random
    [X-ClientTraceId] header is left out. *)
Record request := {
  req_url : str;
  req_params : list (str * str);
  req_headers : list (str * str);
  req_body : str;       (* the text of the only element of the JSON body *)
  req_timeout : Z
}.

(** What [requests.post] does: it raises, or it returns a response with a
    status code and a body; the body is [None] when it is not JSON. *)
Inductive http_outcome :=
| PostRaises (r : request_exception)
| Response (status_code : Z) (body : option json).

(** [resp.raise_for_status()], which raises [HTTPError] for the status codes
    from 400 to 599, followed by [resp.json()]. *)
Definition response_json (o : http_outcome) : result json :=
  match o with
  | PostRaises r => Raise (RequestException r)
  | Response status_code body =>
      if ((400 <=? status_code) && (status_code <? 600))%Z
      then Raise (RequestException (HTTPError status_code))
      else
        match body with
        | None => Raise (RequestException JSONDecodeError)
        | Some data => Ok data
        end
  end.

(** A document is the sequence of the texts of its paragraphs. *)
Abbreviation document := (list (list N)) (only parsing).

(** The outside world of one run. *)
Record world := {
  (* os.path.isfile *)
  isfile : str -> bool;
  (* Document(path): the paragraphs of the file, or the exception raised *)
  load_document : str -> result document;
  (* the translation endpoint: the outcome of a request, which may depend on
     the requests sent before it *)
  post : list request -> request -> http_outcome;
  (* the text of the paragraph that python-docx adds for a string that is
     not empty, as the saved document gives it back, or the exception
     raised: python-docx refuses the characters XML does not allow and
     stores tabs and line ends as elements of their own *)
  add_paragraph_str : str -> result str;
  (* the text python-docx stores when add_paragraph is given a value that
     is not a string, or the exception it raises *)
  add_paragraph_nonstr : json -> result str;
  (* translated_doc.save(path): [None] when the file is written *)
  save_error : str -> option exn
}.

(** The state of a run: the requests sent, oldest first, and the documents
    saved. *)
Record state := {
  calls : list request;
  saved : gmap (list N) (list (list N))
}.

Definition init : state := {| calls := []; saved := ∅ |}.

Section Run.

Context (W : world).

(** [requests.post(...)] records the request and gives the outcome;
    [resp.raise_for_status()] and [resp.json()] are [response_json]. *)
Definition requests_post (req : request) : M state json :=
  fun st =>
    (response_json (post W (calls st) req),
     {| calls := calls st ++ [req]; saved := saved st |}).

(** [data[0]['translations'][0]['text']] *)
Definition response_text (data : json) : result json :=
  rbind (getitem0 data) (fun d0 =>
  rbind (getitem (lit "translations") d0) (fun ts =>
  rbind (getitem0 ts) (fun t0 =>
  getitem (lit "text") t0))).

Definition make_request (text target_language endpoint subscription_key : str)
    (region : option str) : request :=
  let path := lit "/translate" in
  let constructed_url := rstrip_chars (lit "/") endpoint ++ path in
  let headers :=
    [ (lit "Ocp-Apim-Subscription-Key", subscription_key);
      (lit "Content-type", lit "application/json") ] in
  let headers :=
    match region with
    | Some r =>
        if truthy r then headers ++ [(lit "Ocp-Apim-Subscription-Region", r)]
        else headers
    | None => headers
    end in
  let params :=
    [ (lit "api-version", lit "3.0");
      (lit "from", lit "en");
      (lit "to", target_language) ] in
  {| req_url := constructed_url; req_params := params;
     req_headers := headers; req_body := text; req_timeout := 15 |}.

(** [translate_text].  Both [except] clauses log and re-raise, so every
    exception of the [try] block leaves the function unchanged. *)
Definition translate_text (text target_language endpoint subscription_key : str)
    (region : option str) : M state json :=
  if negb (truthy text) then ret (JStr [])
  else
    let* data :=
      requests_post
        (make_request text target_language endpoint subscription_key region) in
    lift (response_text data).

(** [translated_doc.add_paragraph(v)]: the text stored for the value [v].
    The empty string gives a paragraph without text, as for the blank
    paragraphs of the loop; what is stored for any other value is up to
    python-docx. *)
Definition add_paragraph (v : json) : result str :=
  match v with
  | JStr [] => Ok []
  | JStr s => add_paragraph_str W s
  | _ => add_paragraph_nonstr W v
  end.

(** The loop over [doc.paragraphs]; [translated_doc] is the document built
    so far. *)
Fixpoint translate_paragraphs (paragraphs : document)
    (target_language endpoint subscription_key : str) (region : option str)
    (translated_doc : document) : M state document :=
  match paragraphs with
  | [] => ret translated_doc
  | para :: rest =>
      let text := strip para in
      if negb (truthy text) then
        translate_paragraphs rest target_language endpoint subscription_key
          region (translated_doc ++ [[]])
      else
        let* translated :=
          translate_text text target_language endpoint subscription_key region in
        let* stored := lift (add_paragraph translated) in
        translate_paragraphs rest target_language endpoint subscription_key
          region (translated_doc ++ [stored])
  end.

(** Lines 106-110: the explicit output path, or the input path with
    "_<target_language>" put before its extension. *)
Definition output_path_for (input_path target_language : str)
    (output_path : option str) : str :=
  match output_path with
  | Some o =>
      if truthy o then o
      else
        let '(base, ext) := OsPath.splitext input_path in
        base ++ lit "_" ++ target_language ++ ext
  | None =>
      let '(base, ext) := OsPath.splitext input_path in
      base ++ lit "_" ++ target_language ++ ext
  end.

(** [translated_doc.save(out_path)] *)
Definition save (out_path : str) (translated_doc : document) : M state unit :=
  fun st =>
    match save_error W out_path with
    | Some e => (Raise e, st)
    | None =>
        (Ok tt, {| calls := calls st;
                   saved := <[out_path := translated_doc]> (saved st) |})
    end.

(** [translate_document].  [Document()] is a new document with no
    paragraph, the [[]] that the loop starts from. *)
Definition translate_document (input_path target_language endpoint
    subscription_key : str) (region output_path : option str) : M state str :=
  if negb (isfile W input_path) then raise FileNotFoundError
  else
    let* doc := lift (load_document W input_path) in
    let* translated_doc :=
      translate_paragraphs doc target_language endpoint subscription_key
        region [] in
    let out_path := output_path_for input_path target_language output_path in
    save out_path translated_doc ;;
    ret out_path.

(** The parsed command line. *)
Record args := {
  arg_input : str;
  arg_to : str;
  arg_endpoint : option str;
  arg_key : option str;
  arg_region : option str;
  arg_output : option str
}.

(** [main], from the parsed arguments on: the exit status of the process
    and the final state.  [sys.exit(1)] gives status 1; returning from
    [main] ends the script with status 0. *)
Definition main (a : args) (st : state) : Z * state :=
  match arg_key a with
  | None => (1%Z, st)
  | Some key =>
      if negb (truthy key) then (1%Z, st)
      else
        match arg_endpoint a with
        | None => (1%Z, st)
        | Some endpoint =>
            if negb (truthy endpoint) then (1%Z, st)
            else
              match translate_document (arg_input a) (arg_to a) endpoint key
                      (arg_region a) (arg_output a) st with
              | (Ok _, st') => (0%Z, st')
              | (Raise _, st') => (1%Z, st')
              end
        end
  end.

End Run.

End Tradutor.

(** ** translate_url.py *)

Module TranslateUrl.

(** What [requests.get] does: it raises, or it returns a response with a
    status code and the decoded body. *)
Inductive get_outcome :=
| GetRaises (r : request_exception)
| GetResponse (status_code : Z) (text : str).

(** The arguments of the [AzureChatOpenAI] constructor. *)
Record client := {
  azure_endpoint : str;
  api_key : str;
  api_version : str;
  deployment_name : str;
  max_retries : Z
}.

(** One [client.invoke(messages)] call: the client and the role-tagged
    messages. *)
Record invocation := {
  inv_client : client;
  inv_messages : list (str * str)
}.

(** [response.content]: a string, or a list of content blocks. *)
Inductive content :=
| ContentStr (s : str)
| ContentBlocks.

(** The two fields of [urlparse(url)] that the script reads. *)
Record url_parts := {
  netloc : str;
  path : str
}.

(** The outside world of one run. *)
Record world := {
  (* requests.get(url, timeout=15) *)
  get : str -> get_outcome;
  (* BeautifulSoup(html, 'html.parser'), the removal of the script, style
     and noscript elements, and get_text(separator=' ') *)
  soup_text : str -> str;
  (* AzureChatOpenAI(...): [None] when the client is built *)
  client_error : client -> option exn;
  (* the chat-completion endpoint: the outcome of an invocation, which may
     depend on the invocations made before it *)
  invoke : list invocation -> invocation -> result content;
  (* urllib.parse.urlparse *)
  urlparse : str -> result url_parts;
  (* open(path, 'w', encoding='utf-8'): [None] when the file is opened *)
  open_error : str -> option exn;
  (* an input/output error while the text is written to the file or the
     file is closed: the exception and what the file is left with; [None]
     when the text is written *)
  write_error : str -> str -> option (exn * str);
  (* print(line): [None] when the line is printed; standard output may be
     closed or unable to encode the line *)
  print_error : str -> option exn
}.

(** The state of a run: the URLs fetched and the invocations made, oldest
    first, the files written and the lines printed on standard output. *)
Record state := {
  fetches : list (list N);
  invocations : list invocation;
  files : gmap (list N) (list N);
  stdout : list (list N)
}.

Definition init : state :=
  {| fetches := []; invocations := []; files := ∅; stdout := [] |}.

(** Lines 42-44: the cleaning of the extracted text. *)
Definition clean_text (text : str) : str :=
  let linhas := strip <$> splitlines text in
  let parts :=
    concat ((fun line => strip <$> split2 32 32 line) <$> linhas) in
  join [10%N] (filter (fun part => truthy part) parts).

Section Run.

Context (W : world).

Definition extract_text_from_url (url : str) : M state str :=
  fun st =>
    let st' := {| fetches := fetches st ++ [url];
                  invocations := invocations st;
                  files := files st; stdout := stdout st |} in
    match get W url with
    | GetRaises r => (Raise (RequestException r), st')
    | GetResponse status_code html =>
        if negb (status_code =? 200)%Z
        then (Raise (RuntimeError (FetchFailed status_code)), st')
        else (Ok (clean_text (soup_text W html)), st')
    end.

Definition system_prompt : str :=
  lit "Voc" ++ [234%N]
  ++ lit " atua como tradutor de textos. Responda apenas com o conte"
  ++ [250%N] ++ lit "do traduzido em Markdown.".

Definition user_prompt (target_language text : str) : str :=
  lit "Traduza o texto abaixo para " ++ target_language
  ++ lit " e responda em Markdown." ++ [10%N; 10%N] ++ text.

(** [client.invoke(messages)] *)
Definition client_invoke (c : client) (messages : list (str * str))
    : M state content :=
  fun st =>
    let i := {| inv_client := c; inv_messages := messages |} in
    (invoke W (invocations st) i,
     {| fetches := fetches st; invocations := invocations st ++ [i];
        files := files st; stdout := stdout st |}).

(** [translate_article].  The [except] clause logs and re-raises. *)
Definition translate_article (text target_language : str)
    (azure_endpoint azure_key deployment : option str) (api_version : str)
    : M state content :=
  match azure_endpoint, azure_key, deployment with
  | Some e, Some k, Some d =>
      if negb (truthy e) || negb (truthy k) || negb (truthy d)
      then raise (RuntimeError MissingAzureConfig)
      else
        let c := {| azure_endpoint := e; api_key := k;
                    api_version := api_version; deployment_name := d;
                    max_retries := 0 |} in
        match client_error W c with
        | Some err => raise err
        | None =>
            let messages :=
              [ (lit "system", system_prompt);
                (lit "user", user_prompt target_language text) ] in
            client_invoke c messages
        end
  | _, _, _ => raise (RuntimeError MissingAzureConfig)
  end.

Definition filename_from_url (url lang : str) : result str :=
  rbind (urlparse W url) (fun parsed =>
    let host := replace1 58 95 (netloc parsed) in
    let path := replace1 47 95 (strip_chars (lit "/") (path parsed)) in
    let path := if truthy path then path else lit "index" in
    Ok (host ++ lit "_" ++ path ++ lit "_" ++ lang ++ lit ".md")).

(** [args.output or filename_from_url(args.url, args.to)] *)
Definition output_path_for (output : option str) (url lang : str)
    : result str :=
  if truthy_opt output then Ok (default [] output)
  else filename_from_url url lang.

(** What the utf-8 codec encodes: every string without a surrogate code
    point. *)
Definition utf8_encodable (s : str) : bool :=
  forallb (fun c => negb ((55296 <=? c) && (c <=? 57343))%N) s.

(** [with open(out_path, 'w', encoding='utf-8') as f: f.write(translated)].
    Opening creates or empties the file.  [f.write] accepts only a string
    and encodes it before anything reaches the file: a value that is not a
    string or a string that utf-8 cannot encode leaves the file empty.
    (Newlines are written as they are, as on POSIX.) *)
Definition write_file (out_path : str) (translated : content) : M state unit :=
  fun st =>
    let leaving text :=
      {| fetches := fetches st; invocations := invocations st;
         files := <[out_path := text]> (files st); stdout := stdout st |} in
    match open_error W out_path with
    | Some e => (Raise e, st)
    | None =>
        match translated with
        | ContentStr s =>
            if utf8_encodable s then
              match write_error W out_path s with
              | Some (e, remains) => (Raise e, leaving remains)
              | None => (Ok tt, leaving s)
              end
            else (Raise UnicodeEncodeError, leaving [])
        | ContentBlocks => (Raise TypeError, leaving [])
        end
    end.

(** [print(out_path)] *)
Definition print (line : str) : M state unit :=
  fun st =>
    match print_error W line with
    | Some e => (Raise e, st)
    | None =>
        (Ok tt, {| fetches := fetches st; invocations := invocations st;
                   files := files st; stdout := stdout st ++ [line] |})
    end.

(** The parsed command line. *)
Record args := {
  arg_url : str;
  arg_to : str;
  arg_endpoint : option str;
  arg_key : option str;
  arg_deployment : option str;
  arg_api_version : str;
  arg_output : option str
}.

(** Lines 108-116: the [try] block after the text is known not to be
    empty. *)
Definition translate_and_write (a : args) (text : str) : M state unit :=
  let* translated :=
    translate_article text (arg_to a) (arg_endpoint a) (arg_key a)
      (arg_deployment a) (arg_api_version a) in
  let* out_path := lift (output_path_for (arg_output a) (arg_url a) (arg_to a)) in
  write_file out_path translated ;;
  print out_path.

(** [main], from the parsed arguments on: the exit status of the process
    and the final state.  The [sys.exit(1)] of line 106 raises [SystemExit],
    which [except Exception] does not catch; every other exception of the
    [try] block reaches the handler, which exits with status 1. *)
Definition main (a : args) (st : state) : Z * state :=
  match extract_text_from_url (arg_url a) st with
  | (Raise _, st1) => (1%Z, st1)
  | (Ok text, st1) =>
      if negb (truthy text) then (1%Z, st1)
      else
        match translate_and_write a text st1 with
        | (Ok _, st2) => (0%Z, st2)
        | (Raise _, st2) => (1%Z, st2)
        end
  end.

End Run.

End TranslateUrl.

(** ** Vocabulary of the specification and sample worlds *)

Module Spec.

Import Tradutor.

(** The text a request outcome yields: status check, JSON decoding and the
    lookup of the translated text. *)
Definition reply_text (o : http_outcome) : result json :=
  rbind (response_json o) response_text.

(** The requests that a one-call-per-paragraph pass over [paragraphs]
    sends: one for each paragraph whose trimmed text is not empty. *)
Definition requests_for (target_language endpoint subscription_key : str)
    (region : option str) (paragraphs : document) : list request :=
  (fun text =>
     make_request text target_language endpoint subscription_key region)
  <$> filter (fun text => truthy text) (strip <$> paragraphs).

(** The state after one more request. *)
Definition sent (st : state) (req : request) : state :=
  {| calls := calls st ++ [req]; saved := saved st |}.

(** A reply that goes through: the call returns a value and python-docx
    stores a paragraph for it. *)
Definition goes_through (W : world) (r : result json) : bool :=
  match r with
  | Ok v =>
      match add_paragraph W v with
      | Ok _ => true
      | Raise _ => false
      end
  | Raise _ => false
  end.

(** Every step of a pass over [paragraphs] succeeds: each request, sent
    after the ones before it, is answered, and python-docx accepts the
    answer. *)
Fixpoint every_step_succeeds (W : world) (paragraphs : document)
    (target_language endpoint subscription_key : str) (region : option str)
    (history : list request) : bool :=
  match paragraphs with
  | [] => true
  | para :: rest =>
      if truthy (strip para) then
        let req :=
          make_request (strip para) target_language endpoint subscription_key
            region in
        goes_through W (reply_text (post W history req))
        && every_step_succeeds W rest target_language endpoint
             subscription_key region (history ++ [req])
      else
        every_step_succeeds W rest target_language endpoint subscription_key
          region history
  end.

(** A response body in which a field on the way to the translated text is
    missing: no first result, no "translations" key in it, no first
    translation, or no "text" key in it. *)
Inductive missing_field : json -> Prop :=
| no_result : missing_field (JArr [])
| no_translations_key (d : list (str * json)) (rest : list json) :
    dict_get (lit "translations") d = None ->
    missing_field (JArr (JObj d :: rest))
| no_translation (d : list (str * json)) (rest : list json) :
    dict_get (lit "translations") d = Some (JArr []) ->
    missing_field (JArr (JObj d :: rest))
| no_text_key (d t : list (str * json)) (rest ts : list json) :
    dict_get (lit "translations") d = Some (JArr (JObj t :: ts)) ->
    dict_get (lit "text") t = None ->
    missing_field (JArr (JObj d :: rest)).

(** A status code of the 2xx class. *)
Definition is_2xx (status_code : Z) : bool :=
  ((200 <=? status_code) && (status_code <? 300))%Z.

(** A transport failure as the code detects it: [requests.post] raises
    (timeout, connection error), or the status is one that
    [raise_for_status] rejects. *)
Definition transport_failure (o : http_outcome) : bool :=
  match o with
  | PostRaises _ => true
  | Response status_code _ => ((400 <=? status_code) && (status_code <? 600))%Z
  end.

(** The specification's NetworkError is [requests.RequestException]; its
    ParsingError is what the second [except] clause names. *)
Definition NetworkError (e : exn) : Prop := ∃ r, e = RequestException r.
Definition ParsingError (e : exn) : Prop := e = KeyError ∨ e = IndexError.

(** The body of a well-formed answer of the translation endpoint. *)
Definition translation_body (translated : str) : json :=
  JArr [ JObj [ (lit "translations",
                 JArr [ JObj [ (lit "text", JStr translated);
                               (lit "to", JStr (lit "pt")) ] ]) ] ].

(** A sample of python-docx on strings: a control character that XML does
    not allow is refused, a carriage return is stored as a line break,
    which reads back as a newline, and the rest is stored as it is. *)
Definition sample_add_paragraph_str (s : str) : result str :=
  if existsb
       (fun c => (c <? 32)%N && negb ((c =? 9) || (c =? 10) || (c =? 13))%N) s
  then Raise ValueError
  else Ok (replace1 13 10 s).

(** A world whose endpoint answers every request with status [status_code]
    and the translation that [mapping] gives for the request text; the file
    [input_path] holds [doc]. *)
Definition mock_world (status_code : Z) (mapping : str -> str)
    (input_path : str) (doc : document) : world :=
  {| isfile := fun p => bool_decide (p = input_path);
     load_document := fun _ => Ok doc;
     post := fun _ req =>
       Response status_code (Some (translation_body (mapping (req_body req))));
     add_paragraph_str := sample_add_paragraph_str;
     add_paragraph_nonstr := fun _ => Raise TypeError;
     save_error := fun _ => None |}.

(** A world like [mock_world] whose endpoint fails with [outcome] once
    [n] requests have been sent. *)
Definition failing_world (n : nat) (outcome : http_outcome)
    (mapping : str -> str) (input_path : str) (doc : document) : world :=
  {| isfile := fun p => bool_decide (p = input_path);
     load_document := fun _ => Ok doc;
     post := fun history req =>
       if bool_decide (length history < n)%nat
       then Response 200 (Some (translation_body (mapping (req_body req))))
       else outcome;
     add_paragraph_str := sample_add_paragraph_str;
     add_paragraph_nonstr := fun _ => Raise TypeError;
     save_error := fun _ => None |}.

(** A mapping for the samples: it puts the characters pt: before the
    text. *)
Definition sample_mapping (text : str) : str := lit "pt:" ++ text.

Definition sample_args (input : string) : args :=
  {| arg_input := lit input; arg_to := lit "pt-br";
     arg_endpoint := Some (lit "https://api.example/");
     arg_key := Some (lit "k"); arg_region := None; arg_output := None |}.

(** The request that the samples send for [text]. *)
Definition sample_request (text : str) : request :=
  make_request text (lit "pt-br") (lit "https://api.example/") (lit "k") None.

(** A document with a blank paragraph in the middle and a padded one. *)
Definition sample_doc : document := [lit "Hello"; lit "  "; lit " World "].

(** "report.docx" holds [sample_doc]; every request is answered. *)
Definition answering_world : world :=
  mock_world 200 sample_mapping (lit "report.docx") sample_doc.

(** "report.docx" holds one paragraph; the endpoint answers it with status
    300 (Multiple Choices, which requests does not follow) and a
    well-formed body. *)
Definition multiple_choices_world : world :=
  mock_world 300 sample_mapping (lit "report.docx") [lit "Hello"].

(** "report.docx" holds one paragraph; the endpoint translates it to a
    text of two lines separated by a carriage return. *)
Definition carriage_return_world : world :=
  mock_world 200 (fun _ => [120; 13; 121]%N) (lit "report.docx")
    [lit "Hello"].

(** "report.docx" holds three paragraphs; the second request times out. *)
Definition timeout_world : world :=
  failing_world 1 (PostRaises Timeout) sample_mapping (lit "report.docx")
    [lit "Hello"; lit "World"; lit "Again"].

Import TranslateUrl.

(** The newline-separated segments of a text; the empty text has none. *)
Definition lines_of (s : str) : list str :=
  match s with
  | [] => []
  | _ :: _ => split1 10 s
  end.

(** A segment with no leading and no trailing whitespace. *)
Definition no_outer_space (seg : str) : Prop :=
  (∀ c, head seg = Some c → isspace c = false)
  ∧ (∀ c, last seg = Some c → isspace c = false).

(** The client that a run builds from its arguments; there is none when
    the endpoint, the key or the deployment is missing or empty. *)
Definition client_of (a : TranslateUrl.args) : option client :=
  match TranslateUrl.arg_endpoint a, TranslateUrl.arg_key a,
        arg_deployment a with
  | Some e, Some k, Some d =>
      if truthy e && truthy k && truthy d
      then Some {| azure_endpoint := e; api_key := k;
                   api_version := arg_api_version a; deployment_name := d;
                   max_retries := 0 |}
      else None
  | _, _, _ => None
  end.

(** The one invocation that a run makes for the cleaned text [text]. *)
Definition invocation_of (a : TranslateUrl.args) (text : str)
    : option invocation :=
  (fun c =>
     {| inv_client := c;
        inv_messages :=
          [ (lit "system", system_prompt);
            (lit "user", user_prompt (TranslateUrl.arg_to a) text) ] |})
  <$> client_of a.

(** The state after a successful run: one fetch, one invocation, one file
    written and its path printed. *)
Definition written (st : TranslateUrl.state) (url : str) (i : invocation)
    (out_path translated : str) : TranslateUrl.state :=
  {| fetches := fetches st ++ [url];
     invocations := invocations st ++ [i];
     files := <[out_path := translated]> (files st);
     stdout := stdout st ++ [out_path] |}.

(** The text before the first [c], and the rest from that [c] on. *)
Fixpoint span_until (c : char) (s : str) : str * str :=
  match s with
  | [] => ([], [])
  | x :: s' =>
      if (x =? c)%N then ([], s)
      else let '(before, rest) := span_until c s' in (x :: before, rest)
  end.

(** A sample [urlparse] for URLs of the form scheme://netloc/path. *)
Definition sample_urlparse (url : str) : result url_parts :=
  let '(_, rest) := span_until 58 url in
  match rest with
  | 58%N :: 47%N :: 47%N :: rest' =>
      let '(host, p) := span_until 47 rest' in
      Ok {| netloc := host; path := p |}
  | _ => Ok {| netloc := []; path := url |}
  end.

(** A world whose page answers with [status_code] and whose extracted text
    is [page_text]; the chat endpoint answers [answer]. *)
Definition sample_world (status_code : Z) (page_text : str)
    (answer : result content) : TranslateUrl.world :=
  {| get := fun _ => GetResponse status_code (lit "<html></html>");
     soup_text := fun _ => page_text;
     client_error := fun _ => None;
     invoke := fun _ _ => answer;
     urlparse := sample_urlparse;
     open_error := fun _ => None;
     write_error := fun _ _ => None;
     print_error := fun _ => None |}.

(** The text of a page with blank lines, runs of spaces and padded
    lines: " a   b ", "", a tab, "c " and a final "\r\n". *)
Definition untidy_page : str :=
  [32; 97; 32; 32; 32; 98; 32; 10; 10; 9; 10; 99; 32; 13; 10]%N.

(** The page says "Hello"; the chat endpoint answers [answer]. *)
Definition hello_page (answer : str) : TranslateUrl.world :=
  sample_world 200 (lit "Hello") (Ok (ContentStr answer)).

(** The one invocation of a run of the samples on the text [text]. *)
Definition sample_invocation (text : str) : invocation :=
  {| inv_client :=
       {| azure_endpoint := lit "https://r.openai.azure.com";
          api_key := lit "k"; api_version := lit "2023-05-15";
          deployment_name := lit "gpt"; max_retries := 0 |};
     inv_messages :=
       [ (lit "system", system_prompt);
         (lit "user", user_prompt (lit "pt-br") text) ] |}.

Definition sample_url_args : TranslateUrl.args :=
  {| arg_url := lit "https://a.com/x/y"; TranslateUrl.arg_to := lit "pt-br";
     TranslateUrl.arg_endpoint := Some (lit "https://r.openai.azure.com");
     TranslateUrl.arg_key := Some (lit "k");
     arg_deployment := Some (lit "gpt");
     arg_api_version := lit "2023-05-15";
     TranslateUrl.arg_output := None |}.

End Spec.

Import Spec.

(** ** Further vocabulary *)

Module More.

(** The characters of a text that are not whitespace, in order. *)
Definition visible (s : str) : str := filter (λ c, isspace c = false) s.

(** Whether [s] starts with [a]. *)
Definition starts_with (a : char) (s : str) : bool :=
  match s with
  | [] => false
  | c :: _ => (c =? a)%N
  end.

(** Whether [a] occurs twice in a row in [s]. *)
Fixpoint doubled (a : char) (s : str) : bool :=
  match s with
  | [] => false
  | c :: s' =>
      match s' with
      | [] => false
      | c' :: _ => ((c =? a) && (c' =? a))%N || doubled a s'
      end
  end.

(** The texts of the requests in [reqs]. *)
Definition bodies (reqs : list Tradutor.request) : list str :=
  Tradutor.req_body <$> reqs.

(** The trimmed texts of the paragraphs that are not blank, in order. *)
Definition texts_to_translate (doc : list str) : list str :=
  filter (λ text, truthy text) (strip <$> doc).

(** "report.docx" does not exist. *)
Definition missing_file_world : Tradutor.world :=
  {| Tradutor.isfile := fun _ => false;
     Tradutor.load_document := fun _ => Ok sample_doc;
     Tradutor.post := fun _ req =>
       Tradutor.Response 200
         (Some (translation_body (sample_mapping (Tradutor.req_body req))));
     Tradutor.add_paragraph_str := sample_add_paragraph_str;
     Tradutor.add_paragraph_nonstr := fun _ => Raise TypeError;
     Tradutor.save_error := fun _ => None |}.

(** "report.docx" holds [sample_doc] and every request is answered, but
    no file can be saved. *)
Definition unwritable_world : Tradutor.world :=
  {| Tradutor.isfile := fun p => bool_decide (p = lit "report.docx");
     Tradutor.load_document := fun _ => Ok sample_doc;
     Tradutor.post := fun _ req =>
       Tradutor.Response 200
         (Some (translation_body (sample_mapping (Tradutor.req_body req))));
     Tradutor.add_paragraph_str := sample_add_paragraph_str;
     Tradutor.add_paragraph_nonstr := fun _ => Raise TypeError;
     Tradutor.save_error := fun _ => Some OSError |}.

(** The arguments of the samples without a deployment name. *)
Definition no_deployment_args : TranslateUrl.args :=
  {| TranslateUrl.arg_url := lit "https://a.com/x/y";
     TranslateUrl.arg_to := lit "pt-br";
     TranslateUrl.arg_endpoint := Some (lit "https://r.openai.azure.com");
     TranslateUrl.arg_key := Some (lit "k");
     TranslateUrl.arg_deployment := Some [];
     TranslateUrl.arg_api_version := lit "2023-05-15";
     TranslateUrl.arg_output := None |}.

(** The page says "Hello"; the chat endpoint answers with content blocks. *)
Definition blocks_page : TranslateUrl.world :=
  sample_world 200 (lit "Hello") (Ok TranslateUrl.ContentBlocks).

End More.

Import More.

(** * Properties *)

(** ** Python strings *)

Section Examples.

Example strip_example : strip (lit "  a b	 ") = lit "a b".
Proof. vm_compute. reflexivity. Qed.

Example splitlines_example :
  splitlines [97; 10; 10; 98; 13; 10; 99; 10]%N = [[97]; []; [98]; [99]]%N.
Proof. vm_compute. reflexivity. Qed.

Example split2_example : split2 32 32 (lit "a   b") = [lit "a"; lit " b"].
Proof. vm_compute. reflexivity. Qed.

Example splitext_example :
  OsPath.splitext (lit "dir.d/.bashrc") = (lit "dir.d/.bashrc", [])
  ∧ OsPath.splitext (lit "a/b.tar.gz") = (lit "a/b.tar", lit ".gz").
Proof. vm_compute. split; reflexivity. Qed.

Example sample_urlparse_example :
  sample_urlparse (lit "https://a.com/x/y")
  = Ok {| TranslateUrl.netloc := lit "a.com"; TranslateUrl.path := lit "/x/y" |}.
Proof. vm_compute. reflexivity. Qed.

End Examples.

(** *** Stripping *)

Section StripFacts.

Context (p : N → bool).

(** [lstrip] removes a prefix, and what is left does not start with a
    removed character. *)
Lemma lstrip_with_suffix (s : list N) : ∃ k, s = k ++ lstrip_with p s.
Proof.
  induction s as [|c s [k Hk]]; simpl.
  - by exists [].
  - destruct (p c).
    + exists (c :: k). simpl. by f_equal.
    + by exists [].
Qed.

Lemma lstrip_with_head (s : list N) (c : N) :
  head (lstrip_with p s) = Some c → p c = false.
Proof.
  induction s as [|x s IH]; simpl; [done|].
  destruct (p x) eqn:Hx; [done|].
  simpl. by intros [= <-].
Qed.

(** [rstrip] is [lstrip] seen from the other end. *)
Lemma rstrip_with_prefix (s : list N) : ∃ k, s = rstrip_with p s ++ k.
Proof.
  unfold rstrip_with.
  destruct (lstrip_with_suffix (reverse s)) as [k Hk].
  exists (reverse k).
  by rewrite <- reverse_app, <- Hk, reverse_involutive.
Qed.

Lemma rstrip_with_last (s : list N) (c : N) :
  last (rstrip_with p s) = Some c → p c = false.
Proof. unfold rstrip_with. rewrite last_reverse. apply lstrip_with_head. Qed.

Lemma strip_with_last (s : list N) (c : N) :
  last (strip_with p s) = Some c → p c = false.
Proof. apply rstrip_with_last. Qed.

Lemma strip_with_head (s : list N) (c : N) :
  head (strip_with p s) = Some c → p c = false.
Proof.
  unfold strip_with. intros H.
  destruct (rstrip_with_prefix (lstrip_with p s)) as [k Hk].
  apply (lstrip_with_head s). rewrite Hk.
  apply head_Some in H as [l' ->]. done.
Qed.

(** The stripped string is a segment of the original one. *)
Lemma strip_with_middle (s : list N) : ∃ k1 k2, s = k1 ++ strip_with p s ++ k2.
Proof.
  destruct (lstrip_with_suffix s) as [k1 H1].
  destruct (rstrip_with_prefix (lstrip_with p s)) as [k2 H2].
  exists k1, k2. unfold strip_with. by rewrite <- H2.
Qed.

Lemma strip_with_Forall (Q : N → Prop) (s : list N) :
  Forall Q s → Forall Q (strip_with p s).
Proof.
  destruct (strip_with_middle s) as (k1 & k2 & H). intros HQ.
  rewrite H in HQ. apply Forall_app in HQ as [_ HQ].
  by apply Forall_app in HQ as [HQ _].
Qed.

End StripFacts.

(** *** Splitting and joining *)

(** No line of [splitlines] holds a line boundary. *)
Lemma splitlines_from_no_break (n : nat) :
  ∀ cur s : list N,
    (length s ≤ n)%nat →
    Forall (λ c, islinebreak c = false) cur →
    Forall (Forall (λ c, islinebreak c = false)) (splitlines_from cur s).
Proof.
  induction n as [|n IH]; intros cur s Hlen Hcur.
  - destruct s; simpl in *; [|lia].
    destruct cur; [constructor|].
    repeat constructor. by apply Forall_reverse.
  - destruct s as [|c s]; simpl in *.
    + destruct cur; [constructor|].
      repeat constructor. by apply Forall_reverse.
    + destruct (islinebreak c) eqn:Hc.
      * constructor; [by apply Forall_reverse|].
        destruct s as [|c' s']; cbv beta iota.
        -- constructor.
        -- simpl in Hlen.
           destruct ((c =? 13)%N && (c' =? 10)%N);
             apply IH; simpl; try lia; constructor.
      * apply IH; [lia|]. by constructor.
Qed.

Lemma splitlines_no_break (s : list N) :
  Forall (Forall (λ c, islinebreak c = false)) (splitlines s).
Proof. by apply (splitlines_from_no_break (length s)). Qed.

(** The pieces of [split] hold characters of the string only. *)
Lemma split2_from_Forall (Q : N → Prop) (a b : N) (n : nat) :
  ∀ cur s : list N,
    (length s ≤ n)%nat → Forall Q cur → Forall Q s →
    Forall (Forall Q) (split2_from a b cur s).
Proof.
  induction n as [|n IH]; intros cur s Hlen Hcur Hs.
  - destruct s; simpl in *; [|lia].
    repeat constructor. by apply Forall_reverse.
  - destruct s as [|c s]; simpl in *.
    + repeat constructor. by apply Forall_reverse.
    + apply Forall_cons in Hs as [Hc Hs].
      destruct s as [|c' s']; cbv beta iota.
      * repeat constructor. apply Forall_reverse. by constructor.
      * simpl in Hlen. destruct ((c =? a)%N && (c' =? b)%N).
        -- constructor; [by apply Forall_reverse|].
           apply Forall_cons in Hs as [_ Hs].
           apply IH; [lia|constructor|done].
        -- apply IH; [simpl; lia|by constructor|done].
Qed.

Lemma split2_Forall (Q : N → Prop) (a b : N) (s : list N) :
  Forall Q s → Forall (Forall Q) (split2 a b s).
Proof. intros. by apply (split2_from_Forall Q a b (length s)). Qed.

(** Splitting a joined text at the separator gives the joined parts back,
    when there is at least one part and no part holds the separator. *)
Lemma split1_from_app (a : N) (x : list N) :
  ∀ cur s : list N,
    a ∉ x → split1_from a cur (x ++ s) = split1_from a (reverse x ++ cur) s.
Proof.
  induction x as [|c x IH]; intros cur s Hx; simpl; [done|].
  apply not_elem_of_cons in Hx as [Hc Hx].
  destruct (N.eqb_spec c a) as [->|_]; [done|].
  rewrite IH by done. by rewrite reverse_cons, <- app_assoc.
Qed.

Lemma split1_join (a : N) (parts : list (list N)) :
  parts ≠ [] → Forall (λ x, a ∉ x) parts →
  split1 a (join [a] parts) = parts.
Proof.
  unfold split1.
  induction parts as [|x parts IH]; intros Hne Hall; [done|].
  apply Forall_cons in Hall as [Hx Hall].
  destruct parts as [|y parts].
  - simpl. rewrite <- (app_nil_r x) at 1.
    rewrite split1_from_app by done. simpl.
    by rewrite app_nil_r, reverse_involutive.
  - change (join [a] (x :: y :: parts))
      with (x ++ [a] ++ join [a] (y :: parts)).
    rewrite split1_from_app by done. simpl.
    rewrite N.eqb_refl, app_nil_r, reverse_involutive.
    f_equal. by apply IH.
Qed.

Lemma join_nonempty (sep : list N) (parts : list (list N)) :
  parts ≠ [] → Forall (λ x, x ≠ []) parts → join sep parts ≠ [].
Proof.
  destruct parts as [|x parts]; [done|]. intros _ H.
  apply Forall_cons in H as [Hx _].
  destruct parts; simpl; [done|]. by destruct x.
Qed.

(** [splitlines] gives the joined parts back as well, when no part is
    empty or holds a line boundary. *)
Lemma splitlines_from_app (x : list N) :
  ∀ cur s : list N,
    Forall (λ c, islinebreak c = false) x →
    splitlines_from cur (x ++ s) = splitlines_from (reverse x ++ cur) s.
Proof.
  induction x as [|c x IH]; intros cur s Hx; simpl; [done|].
  apply Forall_cons in Hx as [Hc Hx]. rewrite Hc.
  rewrite IH by done. by rewrite reverse_cons, <- app_assoc.
Qed.

Lemma splitlines_join (parts : list (list N)) :
  Forall (λ x, x ≠ [] ∧ Forall (λ c, islinebreak c = false) x) parts →
  splitlines (join [10%N] parts) = parts.
Proof.
  unfold splitlines.
  induction parts as [|x parts IH]; intros Hall; [done|].
  apply Forall_cons in Hall as [[Hne Hx] Hall].
  destruct parts as [|y parts].
  - simpl. rewrite <- (app_nil_r x) at 1.
    rewrite splitlines_from_app by done. simpl. rewrite app_nil_r.
    destruct (reverse x) as [|c r] eqn:Hrev.
    + apply (f_equal reverse) in Hrev.
      by rewrite reverse_involutive in Hrev.
    + by rewrite <- Hrev, reverse_involutive.
  - change (join [10%N] (x :: y :: parts))
      with (x ++ [10%N] ++ join [10%N] (y :: parts)).
    rewrite splitlines_from_app by done.
    change ([10%N] ++ join [10%N] (y :: parts))
      with (10%N :: join [10%N] (y :: parts)).
    cbn [splitlines_from]. change (islinebreak 10) with true. cbv iota.
    rewrite app_nil_r, reverse_involutive. f_equal.
    transitivity (splitlines_from [] (join [10%N] (y :: parts)));
      [|by apply IH].
    destruct (join [10%N] (y :: parts)); reflexivity.
Qed.

(** *** Finding the last occurrence *)

(** [rfind_from] answers [found] when the character does not occur, and
    otherwise the index of an occurrence after which there is no other. *)
Lemma rfind_from_spec (c : N) (s : list N) :
  ∀ i found : Z,
    (rfind_from c i found s = found ∧ c ∉ s)
    ∨ ∃ k : nat,
        rfind_from c i found s = (i + Z.of_nat k)%Z
        ∧ s !! k = Some c
        ∧ c ∉ drop (S k) s.
Proof.
  induction s as [|x s IH]; intros i found; simpl.
  - left. split; [done|]. apply not_elem_of_nil.
  - destruct (IH (i + 1)%Z (if (x =? c)%N then i else found))
      as [[Hr Hnot]|(k & Hr & Hk & Hnot)].
    + destruct (N.eqb_spec x c) as [->|Hne].
      * right. exists 0%nat. rewrite Hr. split; [lia|]. by split.
      * left. split; [done|]. by apply not_elem_of_cons.
    + right. exists (S k). rewrite Hr. split; [lia|]. by split.
Qed.


(** ** The document translator *)

Section TradutorFacts.

Import Tradutor.

Context (W : world).
Context (target_language endpoint subscription_key : list N).
Context (region : option (list N)).

Local Abbreviation request_of text :=
  (make_request text target_language endpoint subscription_key region).
Local Abbreviation run_paragraphs paragraphs :=
  (translate_paragraphs W paragraphs target_language endpoint
     subscription_key region).
Local Abbreviation planned paragraphs :=
  (requests_for target_language endpoint subscription_key region paragraphs).

(** A call on a text that is not empty sends exactly one request and
    decodes its outcome. *)
Lemma translate_text_run (text : list N) (st : state) :
  truthy text = true →
  translate_text W text target_language endpoint subscription_key region st
  = (reply_text (post W (calls st) (request_of text)),
     sent st (request_of text)).
Proof.
  intros Htext. unfold translate_text. rewrite Htext. simpl.
  unfold bind, requests_post, lift, reply_text, sent.
  by destruct (response_json _).
Qed.

(** One turn of the loop. *)
Lemma translate_paragraphs_cons (para : list N) (rest acc : list (list N))
    (st : state) :
  run_paragraphs (para :: rest) acc st
  = if truthy (strip para) then
      match reply_text (post W (calls st) (request_of (strip para))) with
      | Ok v =>
          match add_paragraph W v with
          | Ok stored =>
              run_paragraphs rest (acc ++ [stored])
                (sent st (request_of (strip para)))
          | Raise e => (Raise e, sent st (request_of (strip para)))
          end
      | Raise e => (Raise e, sent st (request_of (strip para)))
      end
    else run_paragraphs rest (acc ++ [[]]) st.
Proof.
  simpl. destruct (truthy (strip para)) eqn:Htext; simpl; [|done].
  unfold bind at 1. rewrite translate_text_run by done.
  destruct (reply_text _) as [v|e]; [|done].
  unfold bind, lift. by destruct (add_paragraph W v).
Qed.

Lemma requests_for_cons (para : list N) (rest : list (list N)) :
  planned (para :: rest)
  = if truthy (strip para) then request_of (strip para) :: planned rest
    else planned rest.
Proof.
  unfold requests_for. rewrite fmap_cons.
  destruct (truthy (strip para)) eqn:Htext.
  - by rewrite filter_cons_True by (by apply Is_true_true).
  - by rewrite filter_cons_False by (by apply Is_true_false).
Qed.

Lemma requests_for_app (p1 p2 : list (list N)) :
  planned (p1 ++ p2) = planned p1 ++ planned p2.
Proof.
  unfold requests_for. by rewrite fmap_app, filter_app, fmap_app.
Qed.

(** The loop run on a concatenation is the loop run on the first part and
    then, if that returned, on the second. *)
Lemma translate_paragraphs_app (p1 p2 : list (list N)) :
  ∀ acc st,
    run_paragraphs (p1 ++ p2) acc st
    = match run_paragraphs p1 acc st with
      | (Ok out, st1) => run_paragraphs p2 out st1
      | (Raise e, st1) => (Raise e, st1)
      end.
Proof.
  induction p1 as [|para p1 IH]; intros acc st; [done|].
  rewrite <- app_comm_cons, !translate_paragraphs_cons.
  destruct (truthy (strip para)); [|apply IH].
  destruct (reply_text _) as [v|e]; [|done].
  destruct (add_paragraph W v); [apply IH|done].
Qed.

(** The loop never touches the saved files. *)
Lemma translate_paragraphs_saved (paragraphs : list (list N)) :
  ∀ acc st r st',
    run_paragraphs paragraphs acc st = (r, st') → saved st' = saved st.
Proof.
  induction paragraphs as [|para rest IH]; intros acc st r st' Hrun.
  - by injection Hrun as _ <-.
  - rewrite translate_paragraphs_cons in Hrun.
    destruct (truthy (strip para)); [|by eapply IH].
    destruct (reply_text _) as [v|e]; [|by injection Hrun as _ <-].
    destruct (add_paragraph W v); [|by injection Hrun as _ <-].
    by apply IH in Hrun.
Qed.

(** What a pass that returns has done: one request for each paragraph that
    is not blank, in order, and one output paragraph for each input
    paragraph. *)
Lemma translate_paragraphs_ok (paragraphs : list (list N)) :
  ∀ acc st out st',
    run_paragraphs paragraphs acc st = (Ok out, st') →
    calls st' = calls st ++ planned paragraphs
    ∧ ∃ new,
        out = acc ++ new
        ∧ length new = length paragraphs
        ∧ ∀ i para,
            paragraphs !! i = Some para →
            if truthy (strip para) then
              ∃ v stored,
                reply_text
                  (post W (calls st ++ planned (take i paragraphs))
                     (request_of (strip para))) = Ok v
                ∧ add_paragraph W v = Ok stored
                ∧ new !! i = Some stored
            else new !! i = Some [].
Proof.
  induction paragraphs as [|para rest IH]; intros acc st out st' Hrun.
  - injection Hrun as <- <-. split; [by rewrite app_nil_r|].
    exists []. by rewrite app_nil_r.
  - rewrite translate_paragraphs_cons in Hrun.
    rewrite requests_for_cons.
    destruct (truthy (strip para)) eqn:Htext.
    + destruct (reply_text _) as [v|e] eqn:Hreply; [|done].
      destruct (add_paragraph W v) as [stored|e] eqn:Hadd; [|done].
      apply IH in Hrun as (Hcalls & new & -> & Hlen & Hnew).
      simpl in Hcalls. split; [by rewrite Hcalls, <- app_assoc|].
      exists (stored :: new). split; [by rewrite <- app_assoc|].
      split; [by simpl; rewrite Hlen|].
      intros [|i] p Hp; simpl in Hp.
      * injection Hp as <-. rewrite Htext. exists v, stored.
        simpl. rewrite app_nil_r. done.
      * specialize (Hnew i p Hp). simpl in Hnew.
        rewrite firstn_cons, requests_for_cons, Htext.
        rewrite <- app_assoc in Hnew. exact Hnew.
    + apply IH in Hrun as (Hcalls & new & -> & Hlen & Hnew).
      split; [done|].
      exists ([] :: new). split; [by rewrite <- app_assoc|].
      split; [by simpl; rewrite Hlen|].
      intros [|i] p Hp; simpl in Hp.
      * injection Hp as <-. by rewrite Htext.
      * specialize (Hnew i p Hp).
        by rewrite firstn_cons, requests_for_cons, Htext.
Qed.

(** When every step succeeds, the pass returns. *)
Lemma translate_paragraphs_total (paragraphs : list (list N)) :
  ∀ acc st,
    every_step_succeeds W paragraphs target_language endpoint
      subscription_key region (calls st) = true →
    ∃ out st', run_paragraphs paragraphs acc st = (Ok out, st').
Proof.
  induction paragraphs as [|para rest IH]; intros acc st Hall.
  - by exists acc, st.
  - rewrite translate_paragraphs_cons. simpl in Hall.
    destruct (truthy (strip para)); [|by apply IH].
    apply andb_prop in Hall as [Hthrough Hall].
    unfold goes_through in Hthrough.
    destruct (reply_text _) as [v|e]; [|done].
    destruct (add_paragraph W v); [|done].
    by apply IH.
Qed.

(** [translate_document] once the input file is found and loaded. *)
Lemma translate_document_run (input_path : list N)
    (output_path : option (list N)) (doc : list (list N)) (st : state) :
  isfile W input_path = true →
  load_document W input_path = Ok doc →
  translate_document W input_path target_language endpoint subscription_key
    region output_path st
  = match run_paragraphs doc [] st with
    | (Ok out, st1) =>
        let out_path := output_path_for input_path target_language output_path in
        match save_error W out_path with
        | Some e => (Raise e, st1)
        | None =>
            (Ok out_path,
             {| calls := calls st1; saved := <[out_path := out]> (saved st1) |})
        end
    | (Raise e, st1) => (Raise e, st1)
    end.
Proof.
  intros Hfile Hload. unfold translate_document.
  rewrite Hfile, Hload. simpl. unfold bind at 1, lift at 1.
  unfold bind at 1.
  destruct (run_paragraphs doc [] st) as [[out|e] st1]; [|done].
  unfold bind, save, ret.
  by destruct (save_error W _).
Qed.


(** A run that returns has saved, at the path it returns, a document with
    one paragraph for each paragraph of the input. *)
Lemma translate_document_count (input_path : list N)
    (output_path : option (list N)) (doc : list (list N)) (st st' : state)
    (out_path : list N) :
  load_document W input_path = Ok doc →
  translate_document W input_path target_language endpoint subscription_key
    region output_path st = (Ok out_path, st') →
  out_path = output_path_for input_path target_language output_path
  ∧ ∃ out, saved st' !! out_path = Some out ∧ length out = length doc.
Proof.
  intros Hload Hrun.
  destruct (isfile W input_path) eqn:Hfile;
    [|by unfold translate_document in Hrun; rewrite Hfile in Hrun].
  rewrite (translate_document_run _ _ doc) in Hrun by done.
  destruct (run_paragraphs doc [] st) as [[out|e1] st1] eqn:Hloop; [|done].
  simpl in Hrun. destruct (save_error W _); [done|].
  injection Hrun as <- <-. split; [done|].
  exists out. simpl. split; [by rewrite lookup_insert_eq|].
  apply translate_paragraphs_ok in Hloop as (_ & new & -> & Hlen & _).
  done.
Qed.

End TradutorFacts.

(** *** Claims about the document translator *)

(** C9.  For the empty input string [translate_text] returns the empty
    string at once: the state, and with it the list of requests sent, is
    unchanged, whatever the target language, endpoint, key and region. *)
Theorem translate_text_empty (W : Tradutor.world)
    (target_language endpoint subscription_key : list N)
    (region : option (list N)) (st : Tradutor.state) :
  Tradutor.translate_text W [] target_language endpoint subscription_key
    region st
  = (Ok (JStr []), st).
Proof. reflexivity. Qed.

(** C1.  For an input document of N paragraphs, every document that
    [translate_document] produces has exactly N paragraphs; and it produces
    one when the input file is there, every translation call succeeds with
    an answer that python-docx accepts, and the output can be saved. *)
Theorem translate_document_paragraph_count (W : Tradutor.world)
    (input_path target_language endpoint subscription_key : list N)
    (region output_path : option (list N)) (doc : list (list N))
    (st : Tradutor.state) :
  Tradutor.load_document W input_path = Ok doc →
  (∀ out_path st',
     Tradutor.translate_document W input_path target_language endpoint
       subscription_key region output_path st = (Ok out_path, st') →
     ∃ out,
       Tradutor.saved st' !! out_path = Some out ∧ length out = length doc)
  ∧ (Tradutor.isfile W input_path = true →
     every_step_succeeds W doc target_language endpoint subscription_key
       region (Tradutor.calls st) = true →
     Tradutor.save_error W
       (Tradutor.output_path_for input_path target_language output_path)
     = None →
     ∃ out_path out st',
       Tradutor.translate_document W input_path target_language endpoint
         subscription_key region output_path st = (Ok out_path, st')
       ∧ Tradutor.saved st' !! out_path = Some out
       ∧ length out = length doc).
Proof.
  intros Hload.
  assert (Hcount : ∀ out_path st',
    Tradutor.translate_document W input_path target_language endpoint
      subscription_key region output_path st = (Ok out_path, st') →
    ∃ out,
      Tradutor.saved st' !! out_path = Some out ∧ length out = length doc).
  { intros out_path st' Hrun.
    by destruct (translate_document_count W target_language endpoint
                   subscription_key region input_path output_path doc st _ _
                   Hload Hrun) as [_ Hout]. }
  split; [exact Hcount|].
  intros Hfile Hall Hsave.
  destruct (translate_paragraphs_total W target_language endpoint
              subscription_key region doc [] st Hall) as (out & st1 & Hloop).
  pose proof (translate_document_run W target_language endpoint
                subscription_key region input_path output_path doc st
                Hfile Hload) as Hrun.
  rewrite Hloop in Hrun. simpl in Hrun. rewrite Hsave in Hrun.
  destruct (Hcount _ _ Hrun) as (out' & Hout & Hlen).
  eexists _, out', _. split; [exact Hrun|]. by split.
Qed.

(** A three-paragraph document with a blank paragraph in the middle, every
    call answered: three paragraphs are saved. *)
Lemma translate_document_paragraph_count_witness :
  ∃ out_path out st',
    Tradutor.translate_document answering_world (lit "report.docx")
      (lit "pt-br") (lit "https://api.example/") (lit "k") None None
      Tradutor.init = (Ok out_path, st')
    ∧ Tradutor.saved st' !! out_path = Some out
    ∧ length out = length sample_doc.
Proof.
  destruct (translate_document_paragraph_count answering_world
              (lit "report.docx") (lit "pt-br") (lit "https://api.example/")
              (lit "k") None None sample_doc Tradutor.init)
    as [_ Hreturns]; [vm_compute; reflexivity|].
  apply Hreturns; vm_compute; reflexivity.
Defined.

(** C2, as the code has it.  Order and blank positions are preserved.  In
    a run that returns, output paragraph [i] is the empty string when the
    trimmed text of input paragraph [i] is empty; otherwise it is the text
    that python-docx stores for what the endpoint returned for the request
    carrying that trimmed text, sent after the requests of the paragraphs
    before it: the returned value is handed to [add_paragraph] as it is.
    [translate_text] itself returns the endpoint's string exactly: with a
    mocked endpoint that answers by a fixed mapping, translating "Hello" to
    "pt-br" gives the mapped string. *)
Theorem translate_document_paragraphs (W : Tradutor.world)
    (input_path target_language endpoint subscription_key : list N)
    (region output_path : option (list N)) (doc : list (list N))
    (st st' : Tradutor.state) (out_path : list N) :
  Tradutor.load_document W input_path = Ok doc →
  Tradutor.translate_document W input_path target_language endpoint
    subscription_key region output_path st = (Ok out_path, st') →
  (∃ out,
     Tradutor.saved st' !! out_path = Some out
     ∧ ∀ (i : nat) (para : list N),
         doc !! i = Some para →
         (strip para = [] → out !! i = Some [])
         ∧ (strip para ≠ [] →
            ∃ v stored,
              reply_text
                (Tradutor.post W
                   (Tradutor.calls st
                    ++ requests_for target_language endpoint subscription_key
                         region (take i doc))
                   (Tradutor.make_request (strip para) target_language
                      endpoint subscription_key region)) = Ok v
              ∧ Tradutor.add_paragraph W v = Ok stored
              ∧ out !! i = Some stored))
  ∧ (∀ (mapping : list N → list N) (p : list N) (d : list (list N))
       (s0 : Tradutor.state),
       Tradutor.translate_text (mock_world 200 mapping p d) (lit "Hello")
         (lit "pt-br") endpoint subscription_key region s0
       = (Ok (JStr (mapping (lit "Hello"))),
          sent s0
            (Tradutor.make_request (lit "Hello") (lit "pt-br") endpoint
               subscription_key region))).
Proof.
  intros Hload Hrun. split; [|reflexivity].
  destruct (Tradutor.isfile W input_path) eqn:Hfile;
    [|by unfold Tradutor.translate_document in Hrun; rewrite Hfile in Hrun].
  rewrite (translate_document_run _ _ _ _ _ _ _ doc) in Hrun by done.
  destruct (Tradutor.translate_paragraphs _ _ _ _ _ _ _ _)
    as [[out|e1] st1] eqn:Hloop; [|done].
  simpl in Hrun. destruct (Tradutor.save_error W _); [done|].
  injection Hrun as <- <-.
  exists out. simpl. split; [by rewrite lookup_insert_eq|].
  apply translate_paragraphs_ok in Hloop as (_ & new & -> & _ & Hnew).
  intros i para Hpara. specialize (Hnew i para Hpara). simpl.
  destruct (strip para) as [|c text] eqn:Htext; simpl in Hnew.
  - split; [done|]. by intros [].
  - split; [done|]. intros _.
    destruct Hnew as (v & stored & Hreply & Hadd & Hlook).
    by exists v, stored.
Qed.

(** The sample document: "Hello" is replaced by its mapping, the blank
    paragraph stays blank at index 1, " World " is sent trimmed. *)
Lemma translate_document_paragraphs_witness :
  ∃ out : list (list N),
    Tradutor.saved
      (snd (Tradutor.translate_document answering_world (lit "report.docx")
              (lit "pt-br") (lit "https://api.example/") (lit "k") None None
              Tradutor.init))
      !! lit "report_pt-br.docx" = Some out
    ∧ out !! 0%nat = Some (lit "pt:Hello")
    ∧ out !! 1%nat = Some []
    ∧ out !! 2%nat = Some (lit "pt:World").
Proof.
  destruct (translate_document_paragraphs answering_world (lit "report.docx")
              (lit "pt-br") (lit "https://api.example/") (lit "k") None None
              sample_doc Tradutor.init
              (snd (Tradutor.translate_document answering_world
                      (lit "report.docx") (lit "pt-br")
                      (lit "https://api.example/") (lit "k") None None
                      Tradutor.init))
              (lit "report_pt-br.docx") eq_refl)
    as [(out & Hsaved & Hout) _].
  { vm_compute. reflexivity. }
  exists out.
  destruct (Hout 0%nat (lit "Hello") eq_refl) as [_ H0].
  destruct (Hout 1%nat (lit "  ") eq_refl) as [H1 _].
  destruct (Hout 2%nat (lit " World ") eq_refl) as [_ H2].
  destruct H0 as (v0 & s0 & Hr0 & Ha0 & ->); [by vm_compute|].
  destruct H2 as (v2 & s2 & Hr2 & Ha2 & ->); [by vm_compute|].
  vm_compute in Hr0. injection Hr0 as <-.
  vm_compute in Hr2. injection Hr2 as <-.
  vm_compute in Ha0. injection Ha0 as <-.
  vm_compute in Ha2. injection Ha2 as <-.
  split; [exact Hsaved|].
  split; [reflexivity|]. split; [by apply H1|reflexivity].
Defined.

(** C2, as stated, fails: the endpoint returns a text with a carriage
    return; [translate_text] returns it as it is, but the paragraph that
    python-docx stores for it reads back with a newline in its place, so
    the output paragraph is not exactly the returned string. *)
Lemma carriage_return_not_verbatim :
  Tradutor.translate_text carriage_return_world (lit "Hello") (lit "pt-br")
    (lit "https://api.example/") (lit "k") None Tradutor.init
  = (Ok (JStr [120; 13; 121]%N),
     {| Tradutor.calls := [sample_request (lit "Hello")];
        Tradutor.saved := ∅ |})
  ∧ Tradutor.translate_document carriage_return_world (lit "report.docx")
      (lit "pt-br") (lit "https://api.example/") (lit "k") None None
      Tradutor.init
    = (Ok (lit "report_pt-br.docx"),
       {| Tradutor.calls := [sample_request (lit "Hello")];
          Tradutor.saved :=
            {[ lit "report_pt-br.docx" := [[120; 10; 121]%N] ]} |})
  ∧ [120; 10; 121]%N ≠ [120; 13; 121]%N.
Proof. vm_compute. repeat split; [reflexivity..|discriminate]. Qed.

(** The lookup of the translated text on a well-formed body, an empty
    list, an error object and a list of numbers. *)
Example response_text_examples :
  Tradutor.response_text (translation_body (lit "Ola")) = Ok (JStr (lit "Ola"))
  ∧ Tradutor.response_text (JArr []) = Raise IndexError
  ∧ Tradutor.response_text (JObj [(lit "error", JNull)]) = Raise KeyError
  ∧ Tradutor.response_text (JArr [JNum 5]) = Raise TypeError.
Proof. vm_compute. repeat split; reflexivity. Qed.

(** The lookup of the translated text raises nothing but [KeyError],
    [IndexError] and [TypeError]. *)
Lemma getitem0_raise (v : json) (e : exn) :
  getitem0 v = Raise e → e = KeyError ∨ e = IndexError ∨ e = TypeError.
Proof.
  destruct v as [| | |[|c s]|[|x l]|]; simpl; intros [= <-]; auto.
Qed.

Lemma getitem_raise (k : list N) (v : json) (e : exn) :
  getitem k v = Raise e → e = KeyError ∨ e = IndexError ∨ e = TypeError.
Proof.
  destruct v; simpl; try (intros [= <-]; by auto).
  destruct (dict_get k fields); intros [= <-]; auto.
Qed.

Lemma response_text_raise (data : json) (e : exn) :
  Tradutor.response_text data = Raise e →
  e = KeyError ∨ e = IndexError ∨ e = TypeError.
Proof.
  unfold Tradutor.response_text.
  destruct (getitem0 data) as [d0|e0] eqn:H0; simpl;
    [|intros [= <-]; by eapply getitem0_raise].
  destruct (getitem _ d0) as [ts|e1] eqn:H1; simpl;
    [|intros [= <-]; by eapply getitem_raise].
  destruct (getitem0 ts) as [t0|e2] eqn:H2; simpl;
    [|intros [= <-]; by eapply getitem0_raise].
  apply getitem_raise.
Qed.

(** A body with a missing field: the lookup raises the [KeyError] or the
    [IndexError] of the step that misses it. *)
Lemma missing_field_raises (data : json) :
  missing_field data →
  ∃ e, Tradutor.response_text data = Raise e ∧ ParsingError e.
Proof.
  unfold Tradutor.response_text, ParsingError.
  destruct 1 as [|d rest Hts|d rest Hts|d t rest ts Hts Htext];
    unfold rbind, getitem0, getitem; cbv beta iota zeta.
  - exists IndexError. auto.
  - rewrite Hts. exists KeyError. auto.
  - rewrite Hts. exists IndexError. auto.
  - rewrite Hts. cbv beta iota. rewrite Htext. exists KeyError. auto.
Qed.

(** C4, as the code has it.  When the paragraphs before paragraph [i] went
    through and the call for paragraph [i] meets a transport failure
    ([requests.post] raising, as on a timeout, or a status from 400 to 599),
    the call raises a NetworkError; when it is answered with a JSON body in
    which a field on the way to the translated text is missing, the call
    raises a ParsingError.  In both cases the whole run raises that
    exception, nothing has been saved, and the requests sent are one for
    each paragraph that is not blank up to the failing one: no retry and no
    request after it. *)
Theorem translate_document_failure_aborts (W : Tradutor.world)
    (input_path target_language endpoint subscription_key : list N)
    (region output_path : option (list N)) (doc : list (list N))
    (st st1 : Tradutor.state) (i : nat) (para : list N)
    (acc : list (list N)) :
  Tradutor.isfile W input_path = true →
  Tradutor.load_document W input_path = Ok doc →
  doc !! i = Some para →
  truthy (strip para) = true →
  Tradutor.translate_paragraphs W (take i doc) target_language endpoint
    subscription_key region [] st = (Ok acc, st1) →
  let req :=
    Tradutor.make_request (strip para) target_language endpoint
      subscription_key region in
  let outcome := Tradutor.post W (Tradutor.calls st1) req in
  (transport_failure outcome = true
   ∨ ∃ status_code data,
       outcome = Tradutor.Response status_code (Some data)
       ∧ transport_failure outcome = false
       ∧ missing_field data) →
  ∃ e,
    (if transport_failure outcome then NetworkError e else ParsingError e)
    ∧ Tradutor.translate_text W (strip para) target_language endpoint
        subscription_key region st1 = (Raise e, sent st1 req)
    ∧ Tradutor.translate_document W input_path target_language endpoint
        subscription_key region output_path st = (Raise e, sent st1 req)
    ∧ Tradutor.saved (sent st1 req) = Tradutor.saved st
    ∧ Tradutor.calls (sent st1 req)
      = Tradutor.calls st
        ++ requests_for target_language endpoint subscription_key region
             (take (S i) doc).
Proof.
  intros Hfile Hload Hpara Htext Hprefix req outcome Hfails.
  assert (Hreply : ∃ e,
    (if transport_failure outcome then NetworkError e else ParsingError e)
    ∧ reply_text outcome = Raise e).
  { unfold reply_text.
    destruct Hfails as [Hfail|(status_code & data & Hout & Hfail & Hmiss)].
    - rewrite Hfail. destruct outcome as [r|status_code body].
      + exists (RequestException r). split; [by exists r|done].
      + simpl in Hfail. simpl. rewrite Hfail.
        exists (RequestException (HTTPError status_code)).
        split; [by eexists|done].
    - rewrite Hfail. rewrite Hout in Hfail |- *. simpl in Hfail. simpl.
      rewrite Hfail. simpl.
      destruct (missing_field_raises data Hmiss) as (e & Hraise & Hparse).
      by exists e. }
  destruct Hreply as (e & Hclass & Hreply).
  exists e.
  assert (Hloop :
    Tradutor.translate_paragraphs W doc target_language endpoint
      subscription_key region [] st = (Raise e, sent st1 req)).
  { rewrite <- (take_drop_middle doc i para Hpara) at 1.
    rewrite translate_paragraphs_app, Hprefix, translate_paragraphs_cons.
    rewrite Htext. fold req. fold outcome. by rewrite Hreply. }
  split; [exact Hclass|]. split; [|split; [|split]].
  - rewrite translate_text_run by done. fold req. fold outcome.
    by rewrite Hreply.
  - rewrite (translate_document_run _ _ _ _ _ _ _ doc) by done.
    by rewrite Hloop.
  - apply translate_paragraphs_saved in Hprefix. done.
  - apply translate_paragraphs_ok in Hprefix as [Hcalls _].
    simpl. rewrite Hcalls, (take_S_r _ _ _ Hpara), requests_for_app.
    rewrite requests_for_cons, Htext, <- app_assoc. done.
Qed.

(** The second request times out: the run raises the timeout, no file is
    saved, and the two requests sent are the only ones. *)
Lemma translate_document_failure_aborts_witness :
  NetworkError (RequestException Timeout)
  ∧ Tradutor.translate_document timeout_world (lit "report.docx")
      (lit "pt-br") (lit "https://api.example/") (lit "k") None None
      Tradutor.init
    = (Raise (RequestException Timeout),
       {| Tradutor.calls :=
            [sample_request (lit "Hello"); sample_request (lit "World")];
          Tradutor.saved := ∅ |}).
Proof.
  destruct (translate_document_failure_aborts timeout_world
              (lit "report.docx") (lit "pt-br") (lit "https://api.example/")
              (lit "k") None None
              [lit "Hello"; lit "World"; lit "Again"] Tradutor.init
              {| Tradutor.calls := [sample_request (lit "Hello")];
                 Tradutor.saved := ∅ |}
              1%nat (lit "World") [lit "pt:Hello"])
    as (e & Hnet & Hcall & Hrun & _ & _);
    try (vm_compute; reflexivity).
  - left. vm_compute. reflexivity.
  - vm_compute in Hcall. injection Hcall as <-.
    split; [exact Hnet|exact Hrun].
Defined.

(** C4, as stated, fails: a 300 answer is a non-2xx status, yet
    [raise_for_status] lets it through; its body is well formed, so the
    call returns, the run goes on and the output document is saved. *)
Lemma non_2xx_status_not_fatal :
  Tradutor.post multiple_choices_world [] (sample_request (lit "Hello"))
  = Tradutor.Response 300
      (Some (translation_body (sample_mapping (lit "Hello"))))
  ∧ is_2xx 300 = false
  ∧ Tradutor.translate_text multiple_choices_world (lit "Hello")
      (lit "pt-br") (lit "https://api.example/") (lit "k") None Tradutor.init
    = (Ok (JStr (lit "pt:Hello")),
       {| Tradutor.calls := [sample_request (lit "Hello")];
          Tradutor.saved := ∅ |})
  ∧ Tradutor.translate_document multiple_choices_world (lit "report.docx")
      (lit "pt-br") (lit "https://api.example/") (lit "k") None None
      Tradutor.init
    = (Ok (lit "report_pt-br.docx"),
       {| Tradutor.calls := [sample_request (lit "Hello")];
          Tradutor.saved := {[ lit "report_pt-br.docx" := [lit "pt:Hello"] ]} |}).
Proof. vm_compute. repeat split; reflexivity. Qed.

(** ** The URL translator *)

Section TranslateUrlFacts.

Import TranslateUrl.

Context (W : world).

(** [translate_article] in terms of the client of the run. *)
Lemma translate_article_run (a : args) (text : list N) (st : state) :
  translate_article W text (arg_to a) (arg_endpoint a) (arg_key a)
    (arg_deployment a) (arg_api_version a) st
  = match invocation_of a text with
    | None => (Raise (RuntimeError MissingAzureConfig), st)
    | Some i =>
        match client_error W (inv_client i) with
        | Some err => (Raise err, st)
        | None =>
            (invoke W (invocations st) i,
             {| fetches := fetches st; invocations := invocations st ++ [i];
                files := files st; stdout := stdout st |})
        end
    end.
Proof.
  unfold translate_article, invocation_of, client_of.
  destruct (arg_endpoint a) as [e|]; [|done].
  destruct (arg_key a) as [k|]; [|done].
  destruct (arg_deployment a) as [d|]; [|done].
  destruct (truthy e), (truthy k), (truthy d); simpl; try done.
  by destruct (client_error W _).
Qed.

(** The second half of [main] returns in one way only: the client is
    built, the endpoint answers with a string that utf-8 can encode, the
    output path is found, the file is opened and written and the path is
    printed. *)
Lemma translate_and_write_ok (a : args) (text : list N) (st st' : state) :
  translate_and_write W a text st = (Ok tt, st') ↔
  ∃ i translated out_path,
    invocation_of a text = Some i
    ∧ client_error W (inv_client i) = None
    ∧ invoke W (invocations st) i = Ok (ContentStr translated)
    ∧ output_path_for W (arg_output a) (arg_url a) (arg_to a) = Ok out_path
    ∧ open_error W out_path = None
    ∧ utf8_encodable translated = true
    ∧ write_error W out_path translated = None
    ∧ print_error W out_path = None
    ∧ st' = {| fetches := fetches st; invocations := invocations st ++ [i];
               files := <[out_path := translated]> (files st);
               stdout := stdout st ++ [out_path] |}.
Proof.
  unfold translate_and_write. unfold bind at 1.
  rewrite translate_article_run.
  destruct (invocation_of a text) as [i|] eqn:Hi.
  2: { split; [done|]. by intros (? & ? & ? & ? & _). }
  destruct (client_error W (inv_client i)) as [err|] eqn:Hclient.
  { split; [done|]. intros (? & ? & ? & ? & ? & _). congruence. }
  destruct (invoke W (invocations st) i) as [c|err] eqn:Hinvoke.
  2: { split; [done|]. intros (? & ? & ? & ? & _ & ? & _). congruence. }
  unfold bind at 1, lift at 1.
  destruct (output_path_for W _ _ _) as [out_path|err] eqn:Hpath.
  2: { split; [done|]. by intros (? & ? & ? & _ & _ & _ & ? & _). }
  unfold bind, write_file, print. simpl.
  destruct (open_error W out_path) as [err|] eqn:Hopen.
  { split; [done|]. intros (? & ? & ? & _ & _ & _ & ? & ? & _). congruence. }
  destruct c as [translated|].
  2: { split; [done|]. intros (? & ? & ? & ? & _ & ? & _). congruence. }
  destruct (utf8_encodable translated) eqn:Hutf.
  2: { split; [done|].
       intros (? & ? & ? & ? & _ & ? & _ & _ & ? & _). congruence. }
  destruct (write_error W out_path translated) as [[err remains]|] eqn:Hwrite.
  { split; [done|].
    intros (? & ? & ? & ? & _ & ? & ? & _ & _ & ? & _). congruence. }
  simpl. destruct (print_error W out_path) as [err|] eqn:Hprint.
  { split; [done|].
    intros (? & ? & ? & _ & _ & _ & ? & _ & _ & _ & ? & _). congruence. }
  split.
  - intros [= <-]. by exists i, translated, out_path.
  - intros (? & ? & ? & ? & _ & ? & ? & _ & _ & _ & _ & ->).
    simplify_eq. simpl. congruence.
Qed.

(** What the second half of [main] has done when it raises: at most one
    invocation, nothing printed, and no file touched but the output
    file. *)
Lemma translate_and_write_raise (a : args) (text : list N) (st st' : state)
    (e : exn) :
  translate_and_write W a text st = (Raise e, st') →
  fetches st' = fetches st
  ∧ stdout st' = stdout st
  ∧ (invocations st' = invocations st
     ∨ ∃ i, invocations st' = invocations st ++ [i])
  ∧ (files st' = files st ∨ ∃ p c, files st' = <[p := c]> (files st)).
Proof.
  unfold translate_and_write. unfold bind at 1.
  rewrite translate_article_run.
  destruct (invocation_of a text) as [i|]; [|intros [= _ <-]; by auto].
  destruct (client_error W (inv_client i)); [intros [= _ <-]; by auto|].
  destruct (invoke W (invocations st) i) as [c|err].
  2: { intros [= _ <-]. simpl. repeat split; eauto. }
  unfold bind at 1, lift at 1.
  destruct (output_path_for W _ _ _) as [out_path|err].
  2: { intros [= _ <-]. simpl. repeat split; eauto. }
  unfold bind, write_file, print. simpl.
  destruct (open_error W out_path).
  { intros [= _ <-]. simpl. repeat split; eauto. }
  destruct c as [translated|].
  2: { intros [= _ <-]. simpl. repeat split; eauto. }
  destruct (utf8_encodable translated).
  2: { intros [= _ <-]. simpl. repeat split; eauto. }
  destruct (write_error W out_path translated) as [[err remains]|].
  { intros [= _ <-]. simpl. repeat split; eauto. }
  simpl. destruct (print_error W out_path); [|done].
  intros [= _ <-]. simpl. repeat split; eauto.
Qed.

(** [main] in terms of the fetch. *)
Lemma main_run (a : args) (st : state) :
  main W a st
  = let st1 := {| fetches := fetches st ++ [arg_url a];
                  invocations := invocations st;
                  files := files st; stdout := stdout st |} in
    match get W (arg_url a) with
    | GetRaises _ => (1%Z, st1)
    | GetResponse status_code html =>
        if (status_code =? 200)%Z then
          let text := clean_text (soup_text W html) in
          if truthy text then
            match translate_and_write W a text st1 with
            | (Ok _, st2) => (0%Z, st2)
            | (Raise _, st2) => (1%Z, st2)
            end
          else (1%Z, st1)
        else (1%Z, st1)
    end.
Proof.
  unfold main, extract_text_from_url.
  destruct (get W (arg_url a)) as [r|status_code html]; [done|].
  destruct (status_code =? 200)%Z; simpl; [|done].
  by destruct (truthy (clean_text (soup_text W html))).
Qed.

End TranslateUrlFacts.

(** *** The cleaned text *)

Lemma elem_of_concat_inv {A} (x : A) (ls : list (list A)) :
  x ∈ concat ls → ∃ l, l ∈ ls ∧ x ∈ l.
Proof.
  induction ls as [|l ls IH]; simpl.
  - by intros ?%elem_of_nil.
  - intros [Hx|Hx]%elem_of_app.
    + exists l. split; [left|done].
    + destruct (IH Hx) as (l' & Hl' & Hx'). exists l'. split; [by right|done].
Qed.

(** Every part that [clean_text] joins is a stripped phrase of a stripped
    line: it is not empty, has no whitespace at either end and holds no
    line boundary. *)
Lemma clean_text_parts (text part : list N) :
  part ∈ filter (λ part, truthy part)
           (concat ((λ line, strip <$> split2 32 32 line)
                    <$> (strip <$> splitlines text))) →
  part ≠ [] ∧ no_outer_space part
  ∧ Forall (λ c, islinebreak c = false) part.
Proof.
  intros [Htruthy Hin]%list_elem_of_filter.
  apply elem_of_concat_inv in Hin as (phrases & Hphrases & Hin).
  apply list_elem_of_fmap in Hphrases as (line & -> & Hline).
  apply list_elem_of_fmap in Hin as (phrase & -> & Hphrase).
  apply list_elem_of_fmap in Hline as (raw & -> & Hraw).
  split; [by intros Heq; rewrite Heq in Htruthy|].
  split.
  - split; intros c Hc.
    + by apply strip_with_head in Hc.
    + by apply strip_with_last in Hc.
  - apply strip_with_Forall.
    assert (Hsplit : Forall (Forall (λ c, islinebreak c = false))
                       (split2 32 32 (strip raw))).
    { apply split2_Forall, strip_with_Forall.
      exact (proj1 (Forall_forall _ _) (splitlines_no_break text) raw Hraw). }
    exact (proj1 (Forall_forall _ _) Hsplit phrase Hphrase).
Qed.

(** The cleaned text, cut at its newlines or into its lines as
    [splitlines] sees them, gives the parts back. *)
Lemma clean_text_lines (text : list N) :
  let parts :=
    filter (λ part, truthy part)
      (concat ((λ line, strip <$> split2 32 32 line)
               <$> (strip <$> splitlines text))) in
  lines_of (TranslateUrl.clean_text text) = parts
  ∧ splitlines (TranslateUrl.clean_text text) = parts.
Proof.
  unfold TranslateUrl.clean_text. cbv zeta.
  set (parts := filter _ _).
  assert (Hparts : ∀ part, part ∈ parts →
            part ≠ [] ∧ no_outer_space part
            ∧ Forall (λ c, islinebreak c = false) part)
    by apply clean_text_parts.
  clearbody parts. split.
  - destruct parts as [|part parts]; [done|].
    assert (Hne : join [10%N] (part :: parts) ≠ []).
    { apply join_nonempty; [done|].
      apply Forall_forall. intros p Hp. by apply Hparts. }
    unfold lines_of.
    destruct (join [10%N] (part :: parts)) eqn:Hjoin; [done|].
    rewrite <- Hjoin. apply split1_join; [done|].
    apply Forall_forall. intros p Hp Hnl.
    destruct (Hparts p Hp) as (_ & _ & Hclean).
    rewrite Forall_forall in Hclean. by apply Hclean in Hnl.
  - apply splitlines_join, Forall_forall. intros p Hp.
    by destruct (Hparts p Hp) as (? & _ & ?).
Qed.

(** *** Claims about the URL translator *)

(** C10.  The cleaned text that [extract_text_from_url] returns has no
    empty line: each of its newline-separated segments is a non-empty string
    with no whitespace at its start or at its end, and so is each of its
    lines as [splitlines] sees them. *)
Theorem extract_text_from_url_lines (W : TranslateUrl.world) (url text : list N)
    (st st' : TranslateUrl.state) :
  TranslateUrl.extract_text_from_url W url st = (Ok text, st') →
  Forall (λ seg, seg ≠ [] ∧ no_outer_space seg) (lines_of text)
  ∧ Forall (λ seg, seg ≠ [] ∧ no_outer_space seg) (splitlines text).
Proof.
  unfold TranslateUrl.extract_text_from_url.
  destruct (TranslateUrl.get W url) as [r|status_code html]; [done|].
  destruct (negb (status_code =? 200)%Z); [done|].
  intros [= <- _].
  destruct (clean_text_lines (TranslateUrl.soup_text W html)) as [-> ->].
  assert (Hgood : Forall (λ seg, seg ≠ [] ∧ no_outer_space seg)
            (filter (λ part, truthy part)
               (concat ((λ line, strip <$> split2 32 32 line)
                        <$> (strip <$> splitlines
                                         (TranslateUrl.soup_text W html)))))).
  { apply Forall_forall. intros part Hpart.
    apply clean_text_parts in Hpart as (Hne & Hspace & _). done. }
  by split.
Qed.

(** A page whose text has blank lines, runs of spaces and padded lines is
    cleaned to three segments. *)
Lemma extract_text_from_url_lines_witness :
  lines_of (TranslateUrl.clean_text untidy_page) = [[97]; [98]; [99]]%N
  ∧ Forall (λ seg, seg ≠ [] ∧ no_outer_space seg)
      (lines_of (TranslateUrl.clean_text untidy_page)).
Proof.
  split; [vm_compute; reflexivity|].
  destruct (extract_text_from_url_lines
              (sample_world 200 untidy_page (Ok (TranslateUrl.ContentStr [])))
              (lit "https://a.com/x/y") (TranslateUrl.clean_text untidy_page)
              TranslateUrl.init
              (snd (TranslateUrl.extract_text_from_url
                      (sample_world 200 untidy_page
                         (Ok (TranslateUrl.ContentStr [])))
                      (lit "https://a.com/x/y") TranslateUrl.init)))
    as [Hlines _]; [vm_compute; reflexivity|exact Hlines].
Defined.

(** A run that gets as far as writing the answer: the file holds the
    answer, and the exit status is that of the final [print]. *)
Lemma main_after_write (W : TranslateUrl.world) (a : TranslateUrl.args)
    (st : TranslateUrl.state) (html : list N) (i : TranslateUrl.invocation)
    (translated out_path : list N) :
  TranslateUrl.get W (TranslateUrl.arg_url a)
  = TranslateUrl.GetResponse 200 html →
  TranslateUrl.clean_text (TranslateUrl.soup_text W html) ≠ [] →
  invocation_of a (TranslateUrl.clean_text (TranslateUrl.soup_text W html))
  = Some i →
  TranslateUrl.client_error W (TranslateUrl.inv_client i) = None →
  TranslateUrl.invoke W (TranslateUrl.invocations st) i
  = Ok (TranslateUrl.ContentStr translated) →
  TranslateUrl.output_path_for W (TranslateUrl.arg_output a)
    (TranslateUrl.arg_url a) (TranslateUrl.arg_to a) = Ok out_path →
  TranslateUrl.open_error W out_path = None →
  TranslateUrl.utf8_encodable translated = true →
  TranslateUrl.write_error W out_path translated = None →
  TranslateUrl.main W a st
  = match TranslateUrl.print_error W out_path with
    | None => (0%Z, written st (TranslateUrl.arg_url a) i out_path translated)
    | Some _ =>
        (1%Z,
         {| TranslateUrl.fetches :=
              TranslateUrl.fetches st ++ [TranslateUrl.arg_url a];
            TranslateUrl.invocations := TranslateUrl.invocations st ++ [i];
            TranslateUrl.files :=
              <[out_path := translated]> (TranslateUrl.files st);
            TranslateUrl.stdout := TranslateUrl.stdout st |})
    end.
Proof.
  intros Hget Htext Hi Hclient Hinvoke Hpath Hopen Hutf Hwrite.
  rewrite main_run, Hget. simpl.
  destruct (TranslateUrl.clean_text _) as [|c text] eqn:Hclean; [done|].
  simpl.
  unfold TranslateUrl.translate_and_write. unfold bind at 1.
  rewrite translate_article_run, Hi, Hclient. simpl. rewrite Hinvoke.
  unfold bind at 1, lift at 1. rewrite Hpath.
  unfold bind, TranslateUrl.write_file, TranslateUrl.print. simpl.
  rewrite Hopen, Hutf, Hwrite. simpl.
  by destruct (TranslateUrl.print_error W out_path).
Qed.

(** C5.  When the fetch answers with a status other than 200,
    [extract_text_from_url] raises the fetch error, [main] exits with
    status 1, the translation endpoint has not been invoked and no file
    has been written. *)
Theorem fetch_failure_aborts (W : TranslateUrl.world) (a : TranslateUrl.args)
    (st : TranslateUrl.state) (status_code : Z) (html : list N) :
  TranslateUrl.get W (TranslateUrl.arg_url a)
  = TranslateUrl.GetResponse status_code html →
  status_code ≠ 200%Z →
  ∃ st',
    TranslateUrl.extract_text_from_url W (TranslateUrl.arg_url a) st
    = (Raise (RuntimeError (FetchFailed status_code)), st')
    ∧ TranslateUrl.main W a st = (1%Z, st')
    ∧ TranslateUrl.invocations st' = TranslateUrl.invocations st
    ∧ TranslateUrl.files st' = TranslateUrl.files st
    ∧ TranslateUrl.stdout st' = TranslateUrl.stdout st.
Proof.
  intros Hget Hstatus. eexists.
  unfold TranslateUrl.main, TranslateUrl.extract_text_from_url.
  rewrite Hget. apply Z.eqb_neq in Hstatus. rewrite Hstatus. simpl.
  repeat split; reflexivity.
Qed.

Lemma fetch_failure_aborts_witness :
  ∃ st',
    TranslateUrl.main
      (sample_world 404 (lit "Hello")
         (Ok (TranslateUrl.ContentStr (lit "Ola"))))
      sample_url_args TranslateUrl.init = (1%Z, st')
    ∧ TranslateUrl.invocations st' = []
    ∧ TranslateUrl.files st' = ∅.
Proof.
  destruct (fetch_failure_aborts
              (sample_world 404 (lit "Hello")
                 (Ok (TranslateUrl.ContentStr (lit "Ola"))))
              sample_url_args TranslateUrl.init 404 (lit "<html></html>"))
    as (st' & _ & Hmain & Hinv & Hfiles & _);
    [reflexivity|lia|].
  exists st'. by repeat split.
Defined.

(** C6.  When the page is fetched and its cleaned text is empty, [main]
    exits with status 1, the translation endpoint has not been invoked and
    no file has been written. *)
Theorem empty_text_aborts (W : TranslateUrl.world) (a : TranslateUrl.args)
    (st : TranslateUrl.state) (html : list N) :
  TranslateUrl.get W (TranslateUrl.arg_url a)
  = TranslateUrl.GetResponse 200 html →
  TranslateUrl.clean_text (TranslateUrl.soup_text W html) = [] →
  ∃ st',
    TranslateUrl.extract_text_from_url W (TranslateUrl.arg_url a) st
    = (Ok [], st')
    ∧ TranslateUrl.main W a st = (1%Z, st')
    ∧ TranslateUrl.invocations st' = TranslateUrl.invocations st
    ∧ TranslateUrl.files st' = TranslateUrl.files st
    ∧ TranslateUrl.stdout st' = TranslateUrl.stdout st.
Proof.
  intros Hget Htext. eexists.
  unfold TranslateUrl.main, TranslateUrl.extract_text_from_url.
  rewrite Hget, Htext. simpl.
  repeat split; reflexivity.
Qed.

(** A page that holds nothing but whitespace. *)
Lemma empty_text_aborts_witness :
  ∃ st',
    TranslateUrl.main
      (sample_world 200 (lit "   ")
         (Ok (TranslateUrl.ContentStr (lit "Ola"))))
      sample_url_args TranslateUrl.init = (1%Z, st')
    ∧ TranslateUrl.invocations st' = []
    ∧ TranslateUrl.files st' = ∅.
Proof.
  destruct (empty_text_aborts
              (sample_world 200 (lit "   ")
                 (Ok (TranslateUrl.ContentStr (lit "Ola"))))
              sample_url_args TranslateUrl.init (lit "<html></html>"))
    as (st' & _ & Hmain & Hinv & Hfiles & _);
    [reflexivity|vm_compute; reflexivity|].
  exists st'. by repeat split.
Defined.

(** C7, as the code has it.  When the extraction succeeds and the chat
    endpoint answers with a string that utf-8 can encode (the client is
    built, the output file can be opened and the write meets no
    input/output error), the output file holds exactly that string: the
    file is empty exactly when the answer is empty.  The run then ends with
    status 0 when the path can be printed and with status 1 when it
    cannot. *)
Theorem output_file_holds_response (W : TranslateUrl.world)
    (a : TranslateUrl.args) (st : TranslateUrl.state) (html : list N)
    (i : TranslateUrl.invocation) (translated out_path : list N) :
  TranslateUrl.get W (TranslateUrl.arg_url a)
  = TranslateUrl.GetResponse 200 html →
  TranslateUrl.clean_text (TranslateUrl.soup_text W html) ≠ [] →
  invocation_of a (TranslateUrl.clean_text (TranslateUrl.soup_text W html))
  = Some i →
  TranslateUrl.client_error W (TranslateUrl.inv_client i) = None →
  TranslateUrl.invoke W (TranslateUrl.invocations st) i
  = Ok (TranslateUrl.ContentStr translated) →
  TranslateUrl.output_path_for W (TranslateUrl.arg_output a)
    (TranslateUrl.arg_url a) (TranslateUrl.arg_to a) = Ok out_path →
  TranslateUrl.open_error W out_path = None →
  TranslateUrl.utf8_encodable translated = true →
  TranslateUrl.write_error W out_path translated = None →
  ∃ code st',
    TranslateUrl.main W a st = (code, st')
    ∧ TranslateUrl.files st' = <[out_path := translated]> (TranslateUrl.files st)
    ∧ TranslateUrl.files st' !! out_path = Some translated
    ∧ (TranslateUrl.files st' !! out_path = Some [] ↔ translated = [])
    ∧ code = match TranslateUrl.print_error W out_path with
             | None => 0%Z
             | Some _ => 1%Z
             end.
Proof.
  intros Hget Htext Hi Hclient Hinvoke Hpath Hopen Hutf Hwrite.
  pose proof (main_after_write W a st html i translated out_path Hget Htext
                Hi Hclient Hinvoke Hpath Hopen Hutf Hwrite) as Hmain.
  assert (Hlook : ∀ m : gmap (list N) (list N),
    <[out_path := translated]> m !! out_path = Some translated).
  { intros m. by rewrite lookup_insert_eq. }
  destruct (TranslateUrl.print_error W out_path) as [e|];
    eexists _, _; (split; [exact Hmain|]); simpl; rewrite Hlook;
    (split; [done|]); (split; [done|]); (split; [|done]);
    split; congruence.
Qed.

Lemma output_file_holds_response_witness :
  ∃ st',
    TranslateUrl.main (hello_page (lit "Ola")) sample_url_args
      TranslateUrl.init = (0%Z, st')
    ∧ TranslateUrl.files st' = {[ lit "a.com_x_y_pt-br.md" := lit "Ola" ]}.
Proof.
  destruct (output_file_holds_response (hello_page (lit "Ola"))
              sample_url_args TranslateUrl.init (lit "<html></html>")
              (sample_invocation (lit "Hello")) (lit "Ola")
              (lit "a.com_x_y_pt-br.md"))
    as (code & st' & Hmain & Hfiles & _ & _ & Hcode);
    try (vm_compute; reflexivity).
  { vm_compute. discriminate. }
  vm_compute in Hcode. subst code.
  exists st'. split; [exact Hmain|exact Hfiles].
Defined.

(** C7, as stated, fails: the page is fetched, its cleaned text is not
    empty, the chat endpoint answers with the empty string; the run ends
    with status 0 and the output file it has written is empty. *)
Lemma empty_response_written :
  TranslateUrl.extract_text_from_url (hello_page [])
    (TranslateUrl.arg_url sample_url_args) TranslateUrl.init
  = (Ok (lit "Hello"),
     {| TranslateUrl.fetches := [lit "https://a.com/x/y"];
        TranslateUrl.invocations := []; TranslateUrl.files := ∅;
        TranslateUrl.stdout := [] |})
  ∧ TranslateUrl.main (hello_page []) sample_url_args TranslateUrl.init
    = (0%Z,
       {| TranslateUrl.fetches := [lit "https://a.com/x/y"];
          TranslateUrl.invocations := [sample_invocation (lit "Hello")];
          TranslateUrl.files := {[ lit "a.com_x_y_pt-br.md" := [] ]};
          TranslateUrl.stdout := [lit "a.com_x_y_pt-br.md"] |}).
Proof. vm_compute. split; reflexivity. Qed.

(** *** Output paths and exit codes *)

(** [splitext] cuts the path in two. *)
Lemma splitext_app (p base ext : list N) :
  OsPath.splitext p = (base, ext) → base ++ ext = p.
Proof.
  unfold OsPath.splitext, OsPath._splitext.
  destruct (_ && _); intros [= <- <-].
  - apply take_drop.
  - apply app_nil_r.
Qed.

(** The second half is a file extension: it is empty, or it is a dot
    followed by characters among which there is neither a dot nor a
    slash. *)
Lemma splitext_ext (p base ext : list N) :
  OsPath.splitext p = (base, ext) →
  ext = [] ∨ ∃ rest, ext = (46 :: rest)%N ∧ (46%N ∉ rest) ∧ (47%N ∉ rest).
Proof.
  unfold OsPath.splitext, OsPath._splitext.
  destruct (_ && _) eqn:Hcond; intros [= <- <-]; [|by left].
  right. apply andb_prop in Hcond as [Hlt _]. apply Z.ltb_lt in Hlt.
  unfold rfind, slice_from in *.
  destruct (rfind_from_spec 46 p 0 (-1)) as [[Hdot _]|(k & Hdot & Hk & Hnodot)];
    destruct (rfind_from_spec 47 p 0 (-1)) as [[Hsep Hnosep]|(j & Hsep & _ & Hnosep)];
    rewrite Hdot, Hsep in Hlt; try lia.
  - exists (drop (S k) p). rewrite Hdot.
    replace (Z.to_nat (0 + Z.of_nat k)) with k by lia.
    split; [by apply drop_S|]. split; [done|].
    intros Hin. by apply subseteq_drop in Hin.
  - exists (drop (S k) p). rewrite Hdot.
    replace (Z.to_nat (0 + Z.of_nat k)) with k by lia.
    split; [by apply drop_S|]. split; [done|].
    replace (S k) with (S j + (k - j))%nat by lia.
    rewrite <- drop_drop. intros Hin. by apply subseteq_drop in Hin.
Qed.

(** C3.  With no explicit output path, the document translator puts
    "_<target>" before the extension of the input path, the extension
    being empty or the last dot of the file name and what follows it
    ("report.docx" and "pt-br" give "report_pt-br.docx"), and the URL translator joins the host
    and the path of the URL, [:] and [/] replaced by [_], with the target
    language and ".md" ("https://a.com/x/y" and "pt-br" give
    "a.com_x_y_pt-br.md", given what [urlparse] answers for that URL). *)
Theorem output_path_derivation (W : TranslateUrl.world) :
  TranslateUrl.urlparse W (lit "https://a.com/x/y")
  = Ok {| TranslateUrl.netloc := lit "a.com"; TranslateUrl.path := lit "/x/y" |} →
  (∀ input_path target_language : list N,
     ∃ base ext,
       OsPath.splitext input_path = (base, ext)
       ∧ input_path = base ++ ext
       ∧ (ext = [] ∨ ∃ rest, ext = (46 :: rest)%N ∧ (46%N ∉ rest) ∧ (47%N ∉ rest))
       ∧ Tradutor.output_path_for input_path target_language None
         = base ++ lit "_" ++ target_language ++ ext)
  ∧ Tradutor.output_path_for (lit "report.docx") (lit "pt-br") None
    = lit "report_pt-br.docx"
  ∧ (∀ (url lang : list N) (parsed : TranslateUrl.url_parts),
       TranslateUrl.urlparse W url = Ok parsed →
       let host := replace1 58 95 (TranslateUrl.netloc parsed) in
       let path :=
         replace1 47 95 (strip_chars (lit "/") (TranslateUrl.path parsed)) in
       TranslateUrl.output_path_for W None url lang
       = Ok (host ++ lit "_" ++ (if truthy path then path else lit "index")
             ++ lit "_" ++ lang ++ lit ".md"))
  ∧ TranslateUrl.output_path_for W None (lit "https://a.com/x/y") (lit "pt-br")
    = Ok (lit "a.com_x_y_pt-br.md").
Proof.
  intros Hparse. split; [|split; [|split]].
  - intros input_path target_language.
    destruct (OsPath.splitext input_path) as [base ext] eqn:Hsplit.
    exists base, ext. split; [done|].
    split; [by rewrite (splitext_app _ _ _ Hsplit)|].
    split; [by eapply splitext_ext|].
    unfold Tradutor.output_path_for. by rewrite Hsplit.
  - vm_compute. reflexivity.
  - intros url lang parsed Hurl. simpl.
    unfold TranslateUrl.output_path_for, TranslateUrl.filename_from_url.
    simpl. by rewrite Hurl.
  - unfold TranslateUrl.output_path_for, TranslateUrl.filename_from_url.
    simpl. rewrite Hparse. vm_compute. reflexivity.
Qed.

Lemma output_path_derivation_witness :
  Tradutor.output_path_for (lit "report.docx") (lit "pt-br") None
  = lit "report_pt-br.docx"
  ∧ TranslateUrl.output_path_for (hello_page []) None
      (lit "https://a.com/x/y") (lit "pt-br")
    = Ok (lit "a.com_x_y_pt-br.md").
Proof.
  destruct (output_path_derivation (hello_page []))
    as (_ & Hdoc & _ & Hurl).
  - vm_compute. reflexivity.
  - split; [exact Hdoc|exact Hurl].
Defined.




(** * Further properties *)

(** ** Stripping, continued *)

Section StripMore.

Context (p : N → bool).

(** What [lstrip] and [rstrip] remove is made of removable characters. *)
Lemma lstrip_with_removed (s : list N) :
  ∃ k, s = k ++ lstrip_with p s ∧ Forall (λ c, p c = true) k.
Proof.
  induction s as [|c s (k & Hk & Hall)]; simpl.
  - by exists [].
  - destruct (p c) eqn:Hc.
    + exists (c :: k). split; [simpl; by f_equal|by constructor].
    + by exists [].
Qed.

Lemma rstrip_with_removed (s : list N) :
  ∃ k, s = rstrip_with p s ++ k ∧ Forall (λ c, p c = true) k.
Proof.
  unfold rstrip_with.
  destruct (lstrip_with_removed (reverse s)) as (k & Hk & Hall).
  exists (reverse k). split.
  - by rewrite <- reverse_app, <- Hk, reverse_involutive.
  - by apply Forall_reverse.
Qed.

(** Removable characters put at the front, or at the back, are removed. *)
Lemma lstrip_with_app_all (k s : list N) :
  Forall (λ c, p c = true) k → lstrip_with p (k ++ s) = lstrip_with p s.
Proof.
  induction k as [|c k IH]; intros Hall; simpl; [done|].
  apply Forall_cons in Hall as [-> Hall]. by apply IH.
Qed.

Lemma rstrip_with_app_all (s k : list N) :
  Forall (λ c, p c = true) k → rstrip_with p (s ++ k) = rstrip_with p s.
Proof.
  intros Hall. unfold rstrip_with.
  rewrite reverse_app, lstrip_with_app_all; [done|].
  by apply Forall_reverse.
Qed.

(** A string that neither starts nor ends with a removable character is
    left as it is. *)
Lemma lstrip_with_fixed (s : list N) :
  (∀ c, head s = Some c → p c = false) → lstrip_with p s = s.
Proof.
  destruct s as [|c s]; [done|]. intros H. simpl. by rewrite (H c).
Qed.

Lemma strip_with_fixed (s : list N) :
  (∀ c, head s = Some c → p c = false) →
  (∀ c, last s = Some c → p c = false) →
  strip_with p s = s.
Proof.
  intros Hhead Hlast. unfold strip_with, rstrip_with.
  rewrite (lstrip_with_fixed s Hhead).
  rewrite lstrip_with_fixed; [apply reverse_involutive|].
  intros c. rewrite head_reverse. apply Hlast.
Qed.

(** A string of removable characters is stripped to nothing. *)
Lemma strip_with_all (s : list N) :
  Forall (λ c, p c = true) s → strip_with p s = [].
Proof.
  intros Hall. unfold strip_with.
  rewrite <- (app_nil_r s), lstrip_with_app_all by done. done.
Qed.

End StripMore.

(** ** The document translator, continued *)

Section TradutorMore.

Import Tradutor.

Context (W : world).
Context (target_language endpoint subscription_key : list N).
Context (region : option (list N)).

Local Abbreviation run_paragraphs paragraphs :=
  (translate_paragraphs W paragraphs target_language endpoint
     subscription_key region).
Local Abbreviation planned paragraphs :=
  (requests_for target_language endpoint subscription_key region paragraphs).

(** Whatever its outcome, the loop has sent the first requests of the
    plan and no other, and a request that did not go through is the last
    one sent. *)
Lemma translate_paragraphs_stops (paragraphs : list (list N)) :
  ∀ acc st r st',
    run_paragraphs paragraphs acc st = (r, st') →
    ∃ new,
      calls st' = calls st ++ new
      ∧ new `prefix_of` planned paragraphs
      ∧ ∀ j req,
          new !! j = Some req →
          goes_through W (reply_text (post W (calls st ++ take j new) req))
          = false →
          length new = S j.
Proof.
  induction paragraphs as [|para rest IH]; intros acc st r st' Hrun.
  - injection Hrun as _ <-. exists []. rewrite app_nil_r.
    split; [done|]. split; [done|]. intros j req Hj. by rewrite lookup_nil in Hj.
  - rewrite translate_paragraphs_cons in Hrun. rewrite requests_for_cons.
    destruct (truthy (strip para)); [|by eapply IH].
    set (req0 := make_request (strip para) target_language endpoint
                   subscription_key region) in *.
    assert (Hone : ∀ j req : _,
      [req0] !! j = Some req → length [req0] = S j).
    { intros [|j] req Hj; [done|]. simpl in Hj. by destruct j. }
    destruct (reply_text _) as [v|e] eqn:Hreply.
    2: { injection Hrun as _ <-. exists [req0].
         split; [done|]. split; [by apply prefix_cons, prefix_nil|].
         intros j req Hj _. by eapply Hone. }
    destruct (add_paragraph W v) as [stored|e] eqn:Hadd.
    2: { injection Hrun as _ <-. exists [req0].
         split; [done|]. split; [by apply prefix_cons, prefix_nil|].
         intros j req Hj _. by eapply Hone. }
    apply IH in Hrun as (new & Hcalls & Hprefix & Hstop).
    exists (req0 :: new). simpl in Hcalls.
    split; [by rewrite Hcalls, <- app_assoc|].
    split; [by apply prefix_cons|].
    intros [|j] req Hj Hfail; simpl in Hj.
    + injection Hj as <-. simpl in Hfail. rewrite app_nil_r in Hfail.
      unfold goes_through in Hfail. by rewrite Hreply, Hadd in Hfail.
    + simpl. f_equal. apply (Hstop j req Hj).
      simpl. rewrite <- app_assoc. exact Hfail.
Qed.

(** The plan carries the trimmed texts of the paragraphs that are not
    blank. *)
Lemma bodies_requests_for (paragraphs : list (list N)) :
  bodies (planned paragraphs) = texts_to_translate paragraphs.
Proof.
  unfold bodies, requests_for, texts_to_translate.
  rewrite <- list_fmap_compose. apply list_fmap_id.
Qed.

Lemma texts_to_translate_length (paragraphs : list (list N)) :
  (length (texts_to_translate paragraphs) ≤ length paragraphs)%nat.
Proof.
  unfold texts_to_translate.
  etransitivity; [apply length_filter|]. by rewrite length_fmap.
Qed.

(** [translate_document] when the input file is not there. *)
Lemma translate_document_no_file (input_path : list N)
    (output_path : option (list N)) (st : state) :
  isfile W input_path = false →
  translate_document W input_path target_language endpoint subscription_key
    region output_path st = (Raise FileNotFoundError, st).
Proof. intros Hfile. unfold translate_document. by rewrite Hfile. Qed.

End TradutorMore.

(** What a run of [translate_document] that returns has done. *)
Lemma translate_document_ok (W : Tradutor.world)
    (input_path target_language endpoint subscription_key : list N)
    (region output_path : option (list N)) (st st' : Tradutor.state)
    (out_path : list N) :
  Tradutor.translate_document W input_path target_language endpoint
    subscription_key region output_path st = (Ok out_path, st') →
  ∃ doc out,
    Tradutor.isfile W input_path = true
    ∧ Tradutor.load_document W input_path = Ok doc
    ∧ out_path = Tradutor.output_path_for input_path target_language output_path
    ∧ Tradutor.saved st' = <[out_path := out]> (Tradutor.saved st)
    ∧ length out = length doc
    ∧ Tradutor.calls st'
      = Tradutor.calls st
        ++ requests_for target_language endpoint subscription_key region doc.
Proof.
  intros Hrun.
  destruct (Tradutor.isfile W input_path) eqn:Hfile.
  2: { by rewrite translate_document_no_file in Hrun. }
  destruct (Tradutor.load_document W input_path) as [doc|e] eqn:Hload.
  2: { unfold Tradutor.translate_document in Hrun.
       by rewrite Hfile, Hload in Hrun. }
  rewrite (translate_document_run _ _ _ _ _ _ _ doc) in Hrun by done.
  destruct (Tradutor.translate_paragraphs _ _ _ _ _ _ _ _)
    as [[out|e] st1] eqn:Hloop; [|done].
  simpl in Hrun. destruct (Tradutor.save_error W _); [done|].
  injection Hrun as <- <-.
  pose proof (translate_paragraphs_saved _ _ _ _ _ _ _ _ _ _ Hloop) as Hsaved.
  apply translate_paragraphs_ok in Hloop as (Hcalls & new & -> & Hlen & _).
  exists doc, new. simpl. by rewrite Hsaved.
Qed.

(** *** Requests *)

(** X1.  The request URL is the endpoint without its trailing slashes,
    followed by "/translate": the part before "/translate" never ends with
    a slash, and writing more slashes at the end of the endpoint changes
    nothing in the request. *)
Theorem request_url_trailing_slashes
    (text target_language endpoint subscription_key : list N)
    (region : option (list N)) :
  ∃ base slashes,
    endpoint = base ++ slashes
    ∧ Forall (λ c, c = 47%N) slashes
    ∧ last base ≠ Some 47%N
    ∧ Tradutor.req_url
        (Tradutor.make_request text target_language endpoint subscription_key
           region)
      = base ++ lit "/translate"
    ∧ ∀ more,
        Forall (λ c, c = 47%N) more →
        Tradutor.make_request text target_language (endpoint ++ more)
          subscription_key region
        = Tradutor.make_request text target_language endpoint
            subscription_key region.
Proof.
  set (q := λ c : N, bool_decide (c ∈ lit "/")).
  assert (Hq : ∀ c, q c = true ↔ c = 47%N).
  { intros c. unfold q. rewrite bool_decide_eq_true.
    change (lit "/") with [47%N]. apply list_elem_of_singleton. }
  destruct (rstrip_with_removed q endpoint) as (slashes & Hsplit & Hall).
  exists (rstrip_with q endpoint), slashes.
  split; [done|]. split.
  { eapply Forall_impl; [exact Hall|]. intros c. apply Hq. }
  split.
  { intros Hlast. apply rstrip_with_last in Hlast.
    assert (q 47%N = true) by by apply Hq. congruence. }
  split; [done|].
  intros more Hmore. unfold Tradutor.make_request, rstrip_chars. fold q.
  rewrite rstrip_with_app_all; [done|].
  eapply Forall_impl; [exact Hmore|]. intros c. apply Hq.
Qed.

(** X2.  A run that returns has sent exactly one request for each paragraph
    whose trimmed text is not empty, in the order of the document, each
    carrying that trimmed text; blank paragraphs cost no request. *)
Theorem translate_document_requests (W : Tradutor.world)
    (input_path target_language endpoint subscription_key : list N)
    (region output_path : option (list N)) (doc : list (list N))
    (st st' : Tradutor.state) (out_path : list N) :
  Tradutor.load_document W input_path = Ok doc →
  Tradutor.translate_document W input_path target_language endpoint
    subscription_key region output_path st = (Ok out_path, st') →
  ∃ new,
    Tradutor.calls st' = Tradutor.calls st ++ new
    ∧ bodies new = texts_to_translate doc
    ∧ Forall (λ req,
        req = Tradutor.make_request (Tradutor.req_body req) target_language
                endpoint subscription_key region) new.
Proof.
  intros Hload Hrun.
  apply translate_document_ok in Hrun
    as (doc' & out & _ & Hload' & _ & _ & _ & Hcalls).
  rewrite Hload in Hload'. injection Hload' as <-.
  eexists. split; [exact Hcalls|]. split; [apply bodies_requests_for|].
  unfold requests_for. apply Forall_fmap, Forall_forall. by intros text _.
Qed.

Lemma translate_document_requests_witness :
  bodies
    (Tradutor.calls
       (snd (Tradutor.translate_document answering_world (lit "report.docx")
               (lit "pt-br") (lit "https://api.example/") (lit "k") None None
               Tradutor.init)))
  = [lit "Hello"; lit "World"].
Proof.
  destruct (translate_document_requests answering_world (lit "report.docx")
              (lit "pt-br") (lit "https://api.example/") (lit "k") None None
              sample_doc Tradutor.init
              (snd (Tradutor.translate_document answering_world
                      (lit "report.docx") (lit "pt-br")
                      (lit "https://api.example/") (lit "k") None None
                      Tradutor.init))
              (lit "report_pt-br.docx"))
    as (new & Hcalls & Hbodies & _);
    [vm_compute; reflexivity|vm_compute; reflexivity|].
  rewrite Hcalls. simpl. exact Hbodies.
Defined.

(** X3.  Whatever the outcome of a run, the requests it has sent are the
    first ones of that plan: never a request for a blank paragraph, never
    two for one paragraph, and so never more requests than paragraphs; and
    a request that was not answered, or whose answer python-docx refused,
    is the last one sent: there is no retry and no request after a
    failure. *)
Theorem translate_document_requests_prefix (W : Tradutor.world)
    (input_path target_language endpoint subscription_key : list N)
    (region output_path : option (list N)) (doc : list (list N))
    (st st' : Tradutor.state) (r : result (list N)) :
  Tradutor.load_document W input_path = Ok doc →
  Tradutor.translate_document W input_path target_language endpoint
    subscription_key region output_path st = (r, st') →
  ∃ new,
    Tradutor.calls st' = Tradutor.calls st ++ new
    ∧ new `prefix_of`
        requests_for target_language endpoint subscription_key region doc
    ∧ bodies new `prefix_of` texts_to_translate doc
    ∧ (length new ≤ length doc)%nat
    ∧ ∀ j req,
        new !! j = Some req →
        goes_through W
          (reply_text
             (Tradutor.post W (Tradutor.calls st ++ take j new) req))
        = false →
        length new = S j.
Proof.
  intros Hload Hrun.
  assert (Hgoal : ∃ new,
    Tradutor.calls st' = Tradutor.calls st ++ new
    ∧ new `prefix_of`
        requests_for target_language endpoint subscription_key region doc
    ∧ ∀ j req,
        new !! j = Some req →
        goes_through W
          (reply_text
             (Tradutor.post W (Tradutor.calls st ++ take j new) req))
        = false →
        length new = S j).
  { destruct (Tradutor.isfile W input_path) eqn:Hfile.
    2: { rewrite translate_document_no_file in Hrun by done.
         injection Hrun as _ <-. exists []. rewrite app_nil_r.
         split; [done|]. split; [apply prefix_nil|].
         intros j req Hj. by rewrite lookup_nil in Hj. }
    rewrite (translate_document_run _ _ _ _ _ _ _ doc) in Hrun by done.
    destruct (Tradutor.translate_paragraphs _ _ _ _ _ _ _ _)
      as [[out|e] st1] eqn:Hloop;
      apply translate_paragraphs_stops in Hloop as (new & Hcalls & Hrest);
      exists new; (split; [|exact Hrest]).
    - simpl in Hrun. destruct (Tradutor.save_error W _);
        by injection Hrun as _ <-.
    - by injection Hrun as _ <-. }
  destruct Hgoal as (new & Hcalls & Hprefix & Hstop).
  exists new. split; [exact Hcalls|]. split; [exact Hprefix|].
  assert (Hbodies : bodies new `prefix_of` texts_to_translate doc).
  { destruct Hprefix as [k Hk].
    rewrite <- bodies_requests_for with
      (target_language := target_language) (endpoint := endpoint)
      (subscription_key := subscription_key) (region := region).
    rewrite Hk. unfold bodies. rewrite fmap_app. by eexists. }
  split; [exact Hbodies|]. split; [|exact Hstop].
  apply prefix_length in Hbodies. unfold bodies in Hbodies.
  rewrite length_fmap in Hbodies.
  pose proof (texts_to_translate_length doc). lia.
Qed.

(** The run whose second request times out has sent "Hello" and "World"
    and nothing for "Again". *)
Lemma translate_document_requests_prefix_witness :
  ∃ new,
    Tradutor.calls
      (snd (Tradutor.translate_document timeout_world (lit "report.docx")
              (lit "pt-br") (lit "https://api.example/") (lit "k") None None
              Tradutor.init))
    = [] ++ new
    ∧ bodies new `prefix_of` [lit "Hello"; lit "World"; lit "Again"]
    ∧ (length new ≤ 3)%nat.
Proof.
  destruct (translate_document_requests_prefix timeout_world
              (lit "report.docx") (lit "pt-br") (lit "https://api.example/")
              (lit "k") None None
              [lit "Hello"; lit "World"; lit "Again"] Tradutor.init
              (snd (Tradutor.translate_document timeout_world
                      (lit "report.docx") (lit "pt-br")
                      (lit "https://api.example/") (lit "k") None None
                      Tradutor.init))
              (Raise (RequestException Timeout)))
    as (new & Hcalls & _ & Hbodies & Hlen & _);
    [vm_compute; reflexivity..|].
  exists new. split; [exact Hcalls|]. split; [exact Hbodies|exact Hlen].
Defined.

(** *** Files *)



(** X5.  Without an explicit output path (none, or the empty string) the
    output path is never the input path: it is longer by one character and
    the target language, so the input file is not overwritten. *)
Theorem derived_output_path_differs (input_path target_language : list N)
    (output_path : option (list N)) :
  truthy_opt output_path = false →
  length (Tradutor.output_path_for input_path target_language output_path)
  = (length input_path + 1 + length target_language)%nat
  ∧ Tradutor.output_path_for input_path target_language output_path
    ≠ input_path.
Proof.
  intros Hnone.
  assert (Hlen :
    length (Tradutor.output_path_for input_path target_language output_path)
    = (length input_path + 1 + length target_language)%nat).
  { unfold Tradutor.output_path_for.
    destruct (OsPath.splitext input_path) as [base ext] eqn:Hsplit.
    apply splitext_app in Hsplit as <-.
    change (lit "_") with [95%N].
    destruct output_path as [[|c o]|]; [|done|];
      repeat (rewrite ?length_app; simpl); lia. }
  split; [exact Hlen|].
  intros Heq. rewrite Heq in Hlen. lia.
Qed.

Lemma derived_output_path_differs_witness :
  Tradutor.output_path_for (lit "report.docx") (lit "pt-br") (Some [])
  ≠ lit "report.docx".
Proof.
  apply (derived_output_path_differs (lit "report.docx") (lit "pt-br")
           (Some [])).
  reflexivity.
Defined.

(** X7.  When the input file does not exist, [translate_document] raises
    [FileNotFoundError] and [main] exits with status 1, whatever the other
    arguments; no request has been sent and nothing has been saved. *)
Theorem missing_input_file (W : Tradutor.world) (a : Tradutor.args)
    (st : Tradutor.state) :
  Tradutor.isfile W (Tradutor.arg_input a) = false →
  Tradutor.main W a st = (1%Z, st)
  ∧ ∀ target_language endpoint subscription_key region output_path,
      Tradutor.translate_document W (Tradutor.arg_input a) target_language
        endpoint subscription_key region output_path st
      = (Raise FileNotFoundError, st).
Proof.
  intros Hfile. split.
  - unfold Tradutor.main.
    destruct (Tradutor.arg_key a) as [key|]; [|done].
    destruct (truthy key); simpl; [|done].
    destruct (Tradutor.arg_endpoint a) as [endpoint|]; [|done].
    destruct (truthy endpoint); simpl; [|done].
    by rewrite translate_document_no_file.
  - intros. by apply translate_document_no_file.
Qed.

Lemma missing_input_file_witness :
  Tradutor.main missing_file_world (sample_args "report.docx") Tradutor.init
  = (1%Z, Tradutor.init).
Proof.
  apply (missing_input_file missing_file_world (sample_args "report.docx")
           Tradutor.init).
  reflexivity.
Defined.

(** *** The extension of the output path *)

Lemma rfind_from_notin (c : N) (s : list N) (i found : Z) :
  c ∉ s → rfind_from c i found s = found.
Proof.
  intros Hnot.
  destruct (rfind_from_spec c s i found) as [[Hr _]|(k & _ & Hk & _)];
    [done|].
  destruct Hnot. by eapply list_elem_of_lookup_2.
Qed.

Lemma rfind_from_app (c : N) (s t : list N) :
  ∀ i found : Z,
    rfind_from c i found (s ++ t)
    = rfind_from c (i + Z.of_nat (length s)) (rfind_from c i found s) t.
Proof.
  induction s as [|x s IH]; intros i found; simpl.
  - by rewrite Z.add_0_r.
  - rewrite IH. f_equal. lia.
Qed.

(** The last occurrence is found where it is. *)
Lemma rfind_last (c : N) (a r : list N) :
  c ∉ r → rfind c (a ++ c :: r) = Z.of_nat (length a).
Proof.
  intros Hnot. unfold rfind. rewrite rfind_from_app. simpl.
  rewrite N.eqb_refl. by apply rfind_from_notin.
Qed.

Lemma rfind_app_notin (c : N) (s t : list N) :
  c ∉ t → rfind c (s ++ t) = rfind c s.
Proof.
  intros Hnot. unfold rfind. rewrite rfind_from_app.
  by apply rfind_from_notin.
Qed.

Lemma rfind_bounds (c : N) (s : list N) :
  (-1 ≤ rfind c s < Z.of_nat (length s))%Z.
Proof.
  unfold rfind.
  destruct (rfind_from_spec c s 0 (-1)) as [[-> _]|(k & -> & Hk & _)];
    [lia|].
  apply lookup_lt_Some in Hk. lia.
Qed.

(** The loop over the leading dots stops as soon as there is a character
    other than the dot in its range. *)
Lemma skip_leading_dots_true (p : list N) (extsep : N) (n : nat) :
  ∀ (i : Z) (j : nat),
    (0 ≤ i)%Z → (Z.to_nat i ≤ j < Z.to_nat i + n)%nat →
    p !! j ≠ Some extsep →
    OsPath.skip_leading_dots n p extsep i = true.
Proof.
  induction n as [|n IH]; intros i j Hi Hj Hp; [lia|].
  simpl. case_bool_decide as Hdot; [|done].
  apply (IH (i + 1)%Z j); [lia| |done].
  assert (j ≠ Z.to_nat i) by (intros ->; done). lia.
Qed.

(** X6.  When the input path has an extension and the target language
    holds no slash, the derived output path has the same extension: what
    [splitext] cuts off it is the extension of the input, and what is left
    is the input's base followed by "_" and the target language. *)
Theorem derived_output_path_keeps_extension
    (input_path target_language base ext : list N) :
  OsPath.splitext input_path = (base, ext) →
  ext ≠ [] →
  47%N ∉ target_language →
  OsPath.splitext (Tradutor.output_path_for input_path target_language None)
  = (base ++ lit "_" ++ target_language, ext).
Proof.
  intros Hsplit Hext Hlang.
  unfold Tradutor.output_path_for. rewrite Hsplit.
  destruct (splitext_ext _ _ _ Hsplit) as [->|(rest & -> & Hdot & Hslash)];
    [done|].
  change (lit "_") with [95%N].
  set (stem := base ++ [95%N] ++ target_language).
  replace (base ++ [95%N] ++ target_language ++ 46%N :: rest)
    with (stem ++ 46%N :: rest)
    by (unfold stem; by rewrite <- !app_assoc).
  unfold OsPath.splitext, OsPath._splitext.
  rewrite (rfind_last 46 stem rest Hdot).
  assert (Hsep : rfind 47 (stem ++ 46%N :: rest) = rfind 47 base).
  { unfold stem. rewrite <- !app_assoc. apply rfind_app_notin.
    rewrite !not_elem_of_app, !not_elem_of_cons.
    repeat split; try done. apply not_elem_of_nil. }
  rewrite Hsep.
  pose proof (rfind_bounds 47 base) as Hbase.
  assert (Hlen : length stem = (length base + 1 + length target_language)%nat).
  { unfold stem. rewrite !length_app. simpl. lia. }
  assert (Hlt : (rfind 47 base <? Z.of_nat (length stem))%Z = true).
  { apply Z.ltb_lt. lia. }
  rewrite Hlt. simpl.
  rewrite (skip_leading_dots_true _ _ _ _ (length base)).
  - unfold slice_to, slice_from. rewrite Nat2Z.id.
    by rewrite take_app_length, drop_app_length.
  - lia.
  - lia.
  - unfold stem. rewrite <- !app_assoc.
    rewrite lookup_app_r by lia. rewrite Nat.sub_diag. simpl. congruence.
Qed.

Lemma derived_output_path_keeps_extension_witness :
  OsPath.splitext
    (Tradutor.output_path_for (lit "dir.d/report.docx") (lit "pt-br") None)
  = (lit "dir.d/report" ++ lit "_" ++ lit "pt-br", lit ".docx").
Proof.
  apply (derived_output_path_keeps_extension (lit "dir.d/report.docx")
           (lit "pt-br") (lit "dir.d/report") (lit ".docx")).
  - vm_compute. reflexivity.
  - vm_compute. discriminate.
  - apply (bool_decide_unpack (47%N ∉ lit "pt-br")). vm_compute. exact I.
Defined.

(** ** The cleaned text, continued *)

Section Visible.

(** Every line boundary is whitespace. *)
Lemma islinebreak_isspace (c : N) : islinebreak c = true → isspace c = true.
Proof.
  unfold islinebreak.
  rewrite !orb_true_iff, !andb_true_iff, !N.leb_le, !N.eqb_eq.
  intros [[[[[H1 H2]|[H1 H2]]| ->]| ->]| ->]; try reflexivity.
  - assert (c = 10 ∨ c = 11 ∨ c = 12 ∨ c = 13)%N as [-> |[-> |[-> | ->]]] by lia;
      reflexivity.
  - assert (c = 28 ∨ c = 29 ∨ c = 30)%N as [-> |[-> | ->]] by lia; reflexivity.
Qed.

Lemma visible_app (s t : list N) : visible (s ++ t) = visible s ++ visible t.
Proof. apply filter_app. Qed.

Lemma visible_cons_space (c : N) (s : list N) :
  isspace c = true → visible (c :: s) = visible s.
Proof.
  intros Hc. unfold visible. apply filter_cons_False. by rewrite Hc.
Qed.

Lemma visible_all_space (s : list N) :
  visible s = [] ↔ Forall (λ c, isspace c = true) s.
Proof.
  induction s as [|c s IH].
  - split; [constructor|done].
  - destruct (isspace c) eqn:Hc.
    + rewrite visible_cons_space by done. rewrite IH. split.
      * by constructor.
      * by intros [_ ?]%Forall_cons.
    + unfold visible. rewrite filter_cons_True by done. split; [done|].
      intros [? _]%Forall_cons. congruence.
Qed.

(** Stripping whitespace removes no visible character. *)
Lemma visible_strip (s : list N) : visible (strip s) = visible s.
Proof.
  unfold strip, strip_with.
  destruct (lstrip_with_removed isspace s) as (k1 & H1 & Hk1).
  destruct (rstrip_with_removed isspace (lstrip_with isspace s))
    as (k2 & H2 & Hk2).
  rewrite H1 at 2. rewrite H2 at 2. rewrite !visible_app.
  apply visible_all_space in Hk1, Hk2. rewrite Hk1, Hk2.
  by rewrite app_nil_r.
Qed.

(** Cutting into lines, or at double spaces, removes no visible
    character. *)
Lemma visible_splitlines_from (n : nat) :
  ∀ cur s : list N,
    (length s ≤ n)%nat →
    concat (visible <$> splitlines_from cur s) = visible (reverse cur ++ s).
Proof.
  induction n as [|n IH]; intros cur s Hlen.
  - destruct s; simpl in *; [|lia].
    destruct cur as [|x cur]; [done|].
    simpl. by rewrite !app_nil_r.
  - destruct s as [|c s]; simpl in *.
    + destruct cur as [|x cur]; [done|]. simpl. by rewrite !app_nil_r.
    + destruct (islinebreak c) eqn:Hc.
      * rewrite fmap_cons. simpl. rewrite visible_app.
        rewrite (visible_cons_space c) by by apply islinebreak_isspace.
        f_equal.
        destruct s as [|c' s']; cbv beta iota; [done|].
        simpl in Hlen.
        destruct ((c =? 13)%N && (c' =? 10)%N) eqn:Hcrlf.
        -- apply andb_prop in Hcrlf as [_ ->%N.eqb_eq].
           rewrite IH by lia. simpl.
           by rewrite (visible_cons_space 10).
        -- rewrite IH by (simpl; lia). done.
      * rewrite IH by lia. by rewrite reverse_cons, <- app_assoc.
Qed.

Lemma visible_split2_from (n : nat) :
  ∀ cur s : list N,
    (length s ≤ n)%nat →
    concat (visible <$> split2_from 32 32 cur s) = visible (reverse cur ++ s).
Proof.
  induction n as [|n IH]; intros cur s Hlen.
  - destruct s; simpl in *; [|lia]. by rewrite !app_nil_r.
  - destruct s as [|c s]; simpl in *.
    + by rewrite !app_nil_r.
    + destruct s as [|c' s']; cbv beta iota.
      * simpl. by rewrite app_nil_r, reverse_cons.
      * simpl in Hlen.
        destruct ((c =? 32)%N && (c' =? 32)%N) eqn:Hsep.
        -- apply andb_prop in Hsep as [->%N.eqb_eq ->%N.eqb_eq].
           rewrite fmap_cons, concat_cons, IH by lia.
           change (reverse [] ++ s') with s'.
           rewrite visible_app.
           by rewrite !(visible_cons_space 32).
        -- rewrite IH by (simpl; lia).
           by rewrite reverse_cons, <- app_assoc.
Qed.

(** Joining with newlines adds no visible character. *)
Lemma visible_join (parts : list (list N)) :
  visible (join [10%N] parts) = concat (visible <$> parts).
Proof.
  induction parts as [|x parts IH]; [done|].
  destruct parts as [|y parts].
  - simpl. by rewrite app_nil_r.
  - change (join [10%N] (x :: y :: parts))
      with (x ++ 10%N :: join [10%N] (y :: parts)).
    rewrite visible_app, (visible_cons_space 10) by done.
    rewrite IH. done.
Qed.

Lemma visible_drop_empty (parts : list (list N)) :
  concat (visible <$> filter (λ part, truthy part) parts)
  = concat (visible <$> parts).
Proof.
  induction parts as [|x parts IH]; [done|].
  destruct x as [|c x].
  - rewrite filter_cons_False by (simpl; tauto). by rewrite IH.
  - rewrite filter_cons_True by done. rewrite !fmap_cons. simpl.
    by rewrite IH.
Qed.

Lemma visible_phrases (raws : list (list N)) :
  concat (visible
          <$> concat ((λ line, strip <$> split2 32 32 line)
                      <$> (strip <$> raws)))
  = concat (visible <$> raws).
Proof.
  induction raws as [|raw raws IH]; [done|].
  rewrite !fmap_cons. simpl. rewrite fmap_app, concat_app, IH. f_equal.
  rewrite <- list_fmap_compose.
  rewrite (list_fmap_ext (visible ∘ strip) visible)
    by (intros ? ? _; apply visible_strip).
  unfold split2.
  rewrite (visible_split2_from (length (strip raw))) by done.
  apply visible_strip.
Qed.

End Visible.

(** X8.  Cleaning changes whitespace only: the characters of the cleaned
    text that are not whitespace are those of the extracted text, in the
    same order. *)
Theorem clean_text_keeps_visible (text : list N) :
  visible (TranslateUrl.clean_text text) = visible text.
Proof.
  unfold TranslateUrl.clean_text. cbv zeta.
  rewrite visible_join, visible_drop_empty, visible_phrases.
  unfold splitlines.
  by rewrite (visible_splitlines_from (length text)).
Qed.

(** The parts that [clean_text] joins. *)
Lemma join_cons_app (sep x : list N) (parts : list (list N)) :
  ∃ r, join sep (x :: parts) = x ++ r.
Proof.
  destruct parts as [|y parts].
  - exists []. simpl. by rewrite app_nil_r.
  - by eexists.
Qed.

(** X10.  The cleaned text is empty exactly when the extracted text holds
    nothing but whitespace: that is when [main] gives up with "no text
    extracted". *)
Theorem clean_text_empty_iff (text : list N) :
  TranslateUrl.clean_text text = [] ↔ Forall (λ c, isspace c = true) text.
Proof.
  rewrite <- visible_all_space.
  assert (Hkeep : visible (TranslateUrl.clean_text text) = visible text).
  { unfold TranslateUrl.clean_text. cbv zeta.
    rewrite visible_join, visible_drop_empty, visible_phrases.
    unfold splitlines. by rewrite (visible_splitlines_from (length text)). }
  rewrite <- Hkeep. clear Hkeep.
  split; [by intros ->|].
  intros Hvisible. unfold TranslateUrl.clean_text in *. cbv zeta in *.
  set (parts := filter _ _) in *.
  assert (Hparts : ∀ part, part ∈ parts →
            part ≠ [] ∧ no_outer_space part
            ∧ Forall (λ c, islinebreak c = false) part)
    by apply clean_text_parts.
  clearbody parts.
  destruct parts as [|[|c x] parts]; [done| |].
  - destruct (Hparts []) as [Hne _]; [left|done].
  - destruct (Hparts (c :: x)) as (_ & [Hhead _] & _); [left|].
    specialize (Hhead c eq_refl).
    destruct (join_cons_app [10%N] (c :: x) parts) as [r Hr].
    rewrite Hr in Hvisible. simpl in Hvisible.
    unfold visible in Hvisible.
    by rewrite filter_cons_True in Hvisible by done.
Qed.

(** ** Double spaces *)

Section Doubled.

Context (a : N).

Lemma doubled_cons (c : N) (s : list N) :
  doubled a (c :: s) = ((c =? a)%N && starts_with a s) || doubled a s.
Proof. destruct s; [simpl; by rewrite andb_false_r|reflexivity]. Qed.

Lemma doubled_snoc (s : list N) (x : N) :
  doubled a (s ++ [x])
  = doubled a s || (starts_with a (reverse s) && (x =? a)%N).
Proof.
  induction s as [|c s IH].
  - reflexivity.
  - rewrite <- app_comm_cons, !doubled_cons, IH, reverse_cons.
    destruct s as [|c' s].
    + simpl. by destruct (c =? a)%N, (x =? a)%N.
    + rewrite reverse_cons.
      change (starts_with a ((c' :: s) ++ [x]))
        with (starts_with a (c' :: s)).
      assert (Hstart : starts_with a ((reverse s ++ [c']) ++ [c])
                       = starts_with a (reverse s ++ [c'])).
      { by destruct (reverse s ++ [c']) eqn:Heq;
          [destruct (reverse s); discriminate Heq|]. }
      rewrite Hstart. by rewrite orb_assoc.
Qed.

(** A double is a double read from either end. *)
Lemma doubled_reverse (s : list N) : doubled a (reverse s) = doubled a s.
Proof.
  induction s as [|c s IH]; [done|].
  rewrite reverse_cons, doubled_snoc, reverse_involutive, IH, doubled_cons.
  by rewrite orb_comm, andb_comm.
Qed.

Lemma doubled_app_false (x y : list N) :
  doubled a (x ++ y) = false → doubled a x = false ∧ doubled a y = false.
Proof.
  induction x as [|c x IH]; [done|].
  rewrite <- app_comm_cons, !doubled_cons.
  intros [H1 H2]%orb_false_elim. destruct (IH H2) as [Hx Hy].
  split; [|done]. rewrite Hx, orb_false_r.
  destruct x as [|c' x]; [by rewrite andb_false_r|exact H1].
Qed.

(** Joining with a separator other than [a] makes no double. *)
Lemma doubled_app_sep (b : N) (x y : list N) :
  b ≠ a → doubled a (x ++ b :: y) = doubled a x || doubled a y.
Proof.
  intros Hb. apply N.eqb_neq in Hb.
  induction x as [|c x IH].
  - simpl app. by rewrite doubled_cons, Hb.
  - rewrite <- app_comm_cons, !doubled_cons, IH, orb_assoc.
    destruct x as [|c' x]; [|done].
    simpl. by rewrite Hb, !andb_false_r.
Qed.

Lemma doubled_join (b : N) (parts : list (list N)) :
  b ≠ a → Forall (λ part, doubled a part = false) parts →
  doubled a (join [b] parts) = false.
Proof.
  intros Hb. induction parts as [|x parts IH]; intros Hall; [done|].
  apply Forall_cons in Hall as [Hx Hall].
  destruct parts as [|y parts]; [done|].
  change (join [b] (x :: y :: parts)) with (x ++ b :: join [b] (y :: parts)).
  rewrite doubled_app_sep by done. by rewrite Hx, IH.
Qed.

(** No piece of a split at doubles holds a double. *)
Lemma split2_from_no_doubled (n : nat) :
  ∀ cur s : list N,
    (length s ≤ n)%nat →
    doubled a cur = false →
    starts_with a cur && starts_with a s = false →
    Forall (λ piece, doubled a piece = false) (split2_from a a cur s).
Proof.
  induction n as [|n IH]; intros cur s Hlen Hcur Hedge.
  - destruct s; simpl in *; [|lia].
    repeat constructor. by rewrite doubled_reverse.
  - destruct s as [|c s]; simpl in Hlen |- *.
    + repeat constructor. by rewrite doubled_reverse.
    + assert (Hnext : doubled a (c :: cur) = false).
      { rewrite doubled_cons, Hcur, orb_false_r.
        simpl in Hedge. by rewrite andb_comm. }
      destruct s as [|c' s']; cbv beta iota.
      * repeat constructor. by rewrite doubled_reverse.
      * simpl in Hlen. destruct ((c =? a)%N && (c' =? a)%N) eqn:Hsep.
        -- constructor; [by rewrite doubled_reverse|].
           apply IH; [lia|done|done].
        -- apply IH; [simpl; lia|done|exact Hsep].
Qed.

Lemma split2_no_doubled (s : list N) :
  Forall (λ piece, doubled a piece = false) (split2 a a s).
Proof. by apply (split2_from_no_doubled (length s)). Qed.

(** A string without a double is one piece. *)
Lemma split2_from_one_piece (n : nat) :
  ∀ cur s : list N,
    (length s ≤ n)%nat → doubled a s = false →
    split2_from a a cur s = [reverse cur ++ s].
Proof.
  induction n as [|n IH]; intros cur s Hlen Hs.
  - destruct s; simpl in *; [|lia]. by rewrite app_nil_r.
  - destruct s as [|c s]; simpl in Hlen |- *.
    + by rewrite app_nil_r.
    + destruct s as [|c' s']; cbv beta iota.
      * by rewrite reverse_cons.
      * simpl in Hlen. rewrite doubled_cons in Hs.
        apply orb_false_elim in Hs as [Hsep Hs]. simpl in Hsep.
        rewrite Hsep, IH by (simpl; lia || done).
        by rewrite reverse_cons, <- app_assoc.
Qed.

Lemma split2_one_piece (s : list N) :
  doubled a s = false → split2 a a s = [s].
Proof. intros. by apply (split2_from_one_piece (length s)). Qed.

End Doubled.

Lemma doubled_strip_with (a : N) (p : N → bool) (s : list N) :
  doubled a s = false → doubled a (strip_with p s) = false.
Proof.
  destruct (strip_with_middle p s) as (k1 & k2 & H). intros Hs.
  rewrite H in Hs. apply doubled_app_false in Hs as [_ Hs].
  by apply doubled_app_false in Hs as [Hs _].
Qed.

(** No part that [clean_text] joins holds a double space. *)
Lemma clean_text_parts_no_doubled (text part : list N) :
  part ∈ filter (λ part, truthy part)
           (concat ((λ line, strip <$> split2 32 32 line)
                    <$> (strip <$> splitlines text))) →
  doubled 32 part = false.
Proof.
  intros [_ Hin]%list_elem_of_filter.
  apply elem_of_concat_inv in Hin as (phrases & Hphrases & Hin).
  apply list_elem_of_fmap in Hphrases as (line & -> & _).
  apply list_elem_of_fmap in Hin as (phrase & -> & Hphrase).
  apply doubled_strip_with.
  exact (proj1 (Forall_forall _ _) (split2_no_doubled 32 line) phrase Hphrase).
Qed.

(** X11.  The cleaned text never holds two spaces in a row. *)
Theorem clean_text_no_double_space (text : list N) :
  doubled 32 (TranslateUrl.clean_text text) = false.
Proof.
  unfold TranslateUrl.clean_text. cbv zeta.
  apply doubled_join; [done|].
  apply Forall_forall. intros part Hpart.
  by eapply clean_text_parts_no_doubled.
Qed.

(** Cleaned parts go through the cleaning unchanged. *)
Lemma clean_parts_fixed (parts : list (list N)) :
  Forall (λ part, part ≠ [] ∧ no_outer_space part ∧ doubled 32 part = false)
    parts →
  filter (λ part, truthy part)
    (concat ((λ line, strip <$> split2 32 32 line) <$> (strip <$> parts)))
  = parts.
Proof.
  induction parts as [|x parts IH]; intros Hall; [done|].
  apply Forall_cons in Hall as [(Hne & [Hhead Hlast] & Hdouble) Hall].
  assert (Hstrip : strip x = x) by by apply strip_with_fixed.
  rewrite !fmap_cons, concat_cons, Hstrip.
  rewrite split2_one_piece by done.
  change (strip <$> [x]) with [strip x]. rewrite Hstrip.
  change ([x] ++ ?l) with (x :: l).
  rewrite filter_cons_True by by destruct x.
  by rewrite IH.
Qed.

(** X9.  Cleaning is idempotent: a cleaned text is left as it is by a
    second cleaning. *)
Theorem clean_text_idempotent (text : list N) :
  TranslateUrl.clean_text (TranslateUrl.clean_text text)
  = TranslateUrl.clean_text text.
Proof.
  destruct (clean_text_lines text) as [_ Hlines]. cbv zeta in Hlines.
  unfold TranslateUrl.clean_text at 1. cbv zeta. rewrite Hlines.
  rewrite clean_parts_fixed; [done|].
  apply Forall_forall. intros part Hpart.
  destruct (clean_text_parts text part Hpart) as (Hne & Hspace & _).
  pose proof (clean_text_parts_no_doubled text part Hpart). done.
Qed.

(** ** The URL translator, continued *)

Section TranslateUrlMore.

Import TranslateUrl.

Context (W : world).

(** With the endpoint, the key or the deployment missing or empty there
    is no client. *)
Lemma client_of_missing (a : args) :
  truthy_opt (arg_endpoint a) = false
  ∨ truthy_opt (arg_key a) = false
  ∨ truthy_opt (arg_deployment a) = false →
  client_of a = None.
Proof.
  unfold client_of.
  destruct (arg_endpoint a) as [e|], (arg_key a) as [k|],
    (arg_deployment a) as [d|]; simpl; try done.
  intros [->|[->| ->]]; by rewrite ?andb_false_r.
Qed.

End TranslateUrlMore.

(** X12.  Every run of the URL translator fetches the page exactly once
    and invokes the chat endpoint at most once; it prints nothing when it
    ends with status 1 and exactly one line when it ends with status 0. *)
Theorem main_fetches_once (W : TranslateUrl.world) (a : TranslateUrl.args)
    (st st' : TranslateUrl.state) (code : Z) :
  TranslateUrl.main W a st = (code, st') →
  TranslateUrl.fetches st'
  = TranslateUrl.fetches st ++ [TranslateUrl.arg_url a]
  ∧ (TranslateUrl.invocations st' = TranslateUrl.invocations st
     ∨ ∃ i, TranslateUrl.invocations st' = TranslateUrl.invocations st ++ [i])
  ∧ (code = 1%Z → TranslateUrl.stdout st' = TranslateUrl.stdout st)
  ∧ (code = 0%Z →
     ∃ out_path, TranslateUrl.stdout st' = TranslateUrl.stdout st ++ [out_path]).
Proof.
  rewrite main_run. cbv zeta.
  destruct (TranslateUrl.get W _) as [r|status_code html].
  { intros [= <- <-]. simpl. repeat split; eauto; done. }
  destruct (status_code =? 200)%Z.
  2: { intros [= <- <-]. simpl. repeat split; eauto; done. }
  destruct (truthy _).
  2: { intros [= <- <-]. simpl. repeat split; eauto; done. }
  destruct (TranslateUrl.translate_and_write W a _ _)
    as [[[]|e] st2] eqn:Hrun; intros [= <- <-].
  - apply translate_and_write_ok in Hrun
      as (i & translated & out_path & _ & _ & _ & _ & _ & _ & _ & _ & ->).
    simpl. repeat split; eauto; done.
  - apply translate_and_write_raise in Hrun as (Hf & Hs & Hi & _).
    simpl in *. rewrite Hf, Hs. repeat split; eauto; done.
Qed.

Lemma main_fetches_once_witness :
  TranslateUrl.fetches
    (snd (TranslateUrl.main (hello_page (lit "Ola")) sample_url_args
            TranslateUrl.init))
  = [] ++ [lit "https://a.com/x/y"].
Proof.
  apply (main_fetches_once (hello_page (lit "Ola")) sample_url_args
           TranslateUrl.init
           (snd (TranslateUrl.main (hello_page (lit "Ola")) sample_url_args
                   TranslateUrl.init)) 0%Z).
  vm_compute. reflexivity.
Defined.

(** X13.  With the endpoint, the key or the deployment missing or empty,
    [translate_article] raises its configuration error before building a
    client, and [main] exits with status 1: whatever the page, the chat
    endpoint has not been invoked, no file has been written and nothing
    has been printed. *)
Theorem missing_configuration (W : TranslateUrl.world) (a : TranslateUrl.args)
    (st : TranslateUrl.state) :
  truthy_opt (TranslateUrl.arg_endpoint a) = false
  ∨ truthy_opt (TranslateUrl.arg_key a) = false
  ∨ truthy_opt (TranslateUrl.arg_deployment a) = false →
  (∀ text s,
     TranslateUrl.translate_article W text (TranslateUrl.arg_to a)
       (TranslateUrl.arg_endpoint a) (TranslateUrl.arg_key a)
       (TranslateUrl.arg_deployment a) (TranslateUrl.arg_api_version a) s
     = (Raise (RuntimeError MissingAzureConfig), s))
  ∧ ∃ st',
      TranslateUrl.main W a st = (1%Z, st')
      ∧ TranslateUrl.invocations st' = TranslateUrl.invocations st
      ∧ TranslateUrl.files st' = TranslateUrl.files st
      ∧ TranslateUrl.stdout st' = TranslateUrl.stdout st.
Proof.
  intros Hmissing. apply client_of_missing in Hmissing.
  assert (Harticle : ∀ text s,
    TranslateUrl.translate_article W text (TranslateUrl.arg_to a)
      (TranslateUrl.arg_endpoint a) (TranslateUrl.arg_key a)
      (TranslateUrl.arg_deployment a) (TranslateUrl.arg_api_version a) s
    = (Raise (RuntimeError MissingAzureConfig), s)).
  { intros text s. rewrite translate_article_run.
    unfold invocation_of. by rewrite Hmissing. }
  split; [exact Harticle|].
  rewrite main_run. cbv zeta.
  destruct (TranslateUrl.get W _) as [r|status_code html]; [by eexists|].
  destruct (status_code =? 200)%Z; [|by eexists].
  destruct (truthy _); [|by eexists].
  unfold TranslateUrl.translate_and_write. unfold bind at 1.
  rewrite Harticle. by eexists.
Qed.

Lemma missing_configuration_witness :
  ∃ st',
    TranslateUrl.main (hello_page (lit "Ola")) no_deployment_args
      TranslateUrl.init = (1%Z, st')
    ∧ TranslateUrl.invocations st' = []
    ∧ TranslateUrl.files st' = ∅
    ∧ TranslateUrl.stdout st' = [].
Proof.
  destruct (missing_configuration (hello_page (lit "Ola")) no_deployment_args
              TranslateUrl.init)
    as [_ Hmain]; [right; right; reflexivity|exact Hmain].
Defined.

(** X16.  When the chat endpoint answers with something that is not a
    string, the output file has already been opened for writing: [main]
    exits with status 1, prints nothing, and leaves the output file
    empty. *)
Theorem non_string_answer_leaves_empty_file (W : TranslateUrl.world)
    (a : TranslateUrl.args) (st : TranslateUrl.state) (html : list N)
    (i : TranslateUrl.invocation) (out_path : list N) :
  TranslateUrl.get W (TranslateUrl.arg_url a)
  = TranslateUrl.GetResponse 200 html →
  TranslateUrl.clean_text (TranslateUrl.soup_text W html) ≠ [] →
  invocation_of a (TranslateUrl.clean_text (TranslateUrl.soup_text W html))
  = Some i →
  TranslateUrl.client_error W (TranslateUrl.inv_client i) = None →
  TranslateUrl.invoke W (TranslateUrl.invocations st) i
  = Ok TranslateUrl.ContentBlocks →
  TranslateUrl.output_path_for W (TranslateUrl.arg_output a)
    (TranslateUrl.arg_url a) (TranslateUrl.arg_to a) = Ok out_path →
  TranslateUrl.open_error W out_path = None →
  ∃ st',
    TranslateUrl.main W a st = (1%Z, st')
    ∧ TranslateUrl.files st' = <[out_path := []]> (TranslateUrl.files st)
    ∧ TranslateUrl.stdout st' = TranslateUrl.stdout st.
Proof.
  intros Hget Htext Hi Hclient Hinvoke Hpath Hopen.
  rewrite main_run, Hget. simpl.
  destruct (TranslateUrl.clean_text _) as [|c text] eqn:Hclean; [done|].
  simpl.
  unfold TranslateUrl.translate_and_write. unfold bind at 1.
  rewrite translate_article_run, Hi, Hclient. simpl. rewrite Hinvoke.
  unfold bind at 1, lift at 1. rewrite Hpath.
  unfold bind, TranslateUrl.write_file. simpl. rewrite Hopen.
  by eexists.
Qed.

Lemma non_string_answer_leaves_empty_file_witness :
  ∃ st',
    TranslateUrl.main blocks_page sample_url_args TranslateUrl.init
    = (1%Z, st')
    ∧ TranslateUrl.files st' = <[lit "a.com_x_y_pt-br.md" := []]> ∅
    ∧ TranslateUrl.stdout st' = [].
Proof.
  apply (non_string_answer_leaves_empty_file blocks_page sample_url_args
           TranslateUrl.init (lit "<html></html>")
           (sample_invocation (lit "Hello")) (lit "a.com_x_y_pt-br.md"));
    try (vm_compute; reflexivity).
  vm_compute. discriminate.
Defined.

(** *** The derived file name *)

(** [replace] puts [b] where [a] was and keeps the rest. *)
Lemma replace1_notin (a b : N) (s : list N) : a ≠ b → a ∉ replace1 a b s.
Proof.
  intros Hne. unfold replace1.
  intros (c & Hc & _)%list_elem_of_fmap.
  destruct (N.eqb_spec c a); congruence.
Qed.

Lemma replace1_elem (a b c : N) (s : list N) :
  c ∈ replace1 a b s → c = b ∨ c ∈ s.
Proof.
  unfold replace1. intros (x & -> & Hx)%list_elem_of_fmap.
  destruct (x =? a)%N; auto.
Qed.

(** X14.  The derived file name holds no slash, whatever the path of the
    URL, as long as the host and the target language hold none: the output
    is a file of the current directory.  Its host part holds no colon. *)
Theorem filename_from_url_no_slash (W : TranslateUrl.world) (url lang : list N)
    (parsed : TranslateUrl.url_parts) :
  TranslateUrl.urlparse W url = Ok parsed →
  47%N ∉ TranslateUrl.netloc parsed →
  47%N ∉ lang →
  ∃ host rest,
    TranslateUrl.filename_from_url W url lang = Ok (host ++ lit "_" ++ rest)
    ∧ length host = length (TranslateUrl.netloc parsed)
    ∧ (58%N ∉ host)
    ∧ (47%N ∉ host ++ lit "_" ++ rest).
Proof.
  intros Hparse Hhost Hlang.
  unfold TranslateUrl.filename_from_url. rewrite Hparse.
  unfold rbind. cbv beta iota zeta.
  eexists _, _. split; [reflexivity|].
  split; [unfold replace1; by rewrite length_fmap|].
  split; [by apply replace1_notin|].
  assert (Hlit : ∀ s : string,
            bool_decide (47%N ∉ lit s) = true → 47%N ∉ lit s)
    by (intros s; apply bool_decide_eq_true).
  rewrite !not_elem_of_app. repeat split.
  - intros [Hc|Hc]%replace1_elem; [done|by apply Hhost].
  - by apply Hlit.
  - destruct (truthy _); [apply replace1_notin; done|by apply Hlit].
  - by apply Hlit.
  - exact Hlang.
  - by apply Hlit.
Qed.

Lemma filename_from_url_no_slash_witness :
  ∃ host rest,
    TranslateUrl.filename_from_url (hello_page []) (lit "https://a.com/x/y")
      (lit "pt-br") = Ok (host ++ lit "_" ++ rest)
    ∧ 47%N ∉ host ++ lit "_" ++ rest.
Proof.
  destruct (filename_from_url_no_slash (hello_page [])
              (lit "https://a.com/x/y") (lit "pt-br")
              {| TranslateUrl.netloc := lit "a.com";
                 TranslateUrl.path := lit "/x/y" |})
    as (host & rest & Hname & _ & _ & Hslash).
  - vm_compute. reflexivity.
  - apply (bool_decide_unpack (47%N ∉ lit "a.com")). vm_compute. exact I.
  - apply (bool_decide_unpack (47%N ∉ lit "pt-br")). vm_compute. exact I.
  - by exists host, rest.
Defined.

(** X15.  A URL whose path is empty or made of slashes only gets the name
    "index" in place of the path. *)
Theorem filename_from_url_index (W : TranslateUrl.world) (url lang : list N)
    (parsed : TranslateUrl.url_parts) :
  TranslateUrl.urlparse W url = Ok parsed →
  Forall (λ c, c = 47%N) (TranslateUrl.path parsed) →
  TranslateUrl.filename_from_url W url lang
  = Ok (replace1 58 95 (TranslateUrl.netloc parsed)
        ++ lit "_" ++ lit "index" ++ lit "_" ++ lang ++ lit ".md").
Proof.
  intros Hparse Hpath.
  unfold TranslateUrl.filename_from_url. rewrite Hparse.
  unfold rbind. cbv beta iota zeta.
  unfold strip_chars. rewrite strip_with_all; [done|].
  eapply Forall_impl; [exact Hpath|].
  intros c ->. reflexivity.
Qed.

Lemma filename_from_url_index_witness :
  TranslateUrl.filename_from_url (hello_page []) (lit "https://a.com:8080/")
    (lit "pt-br")
  = Ok (lit "a.com_8080_index_pt-br.md").
Proof.
  rewrite (filename_from_url_index (hello_page [])
             (lit "https://a.com:8080/") (lit "pt-br")
             {| TranslateUrl.netloc := lit "a.com:8080";
                TranslateUrl.path := lit "/" |}).
  - vm_compute. reflexivity.
  - vm_compute. reflexivity.
  - repeat constructor.
Defined.

(** *** A save that fails *)

(** X17.  The document is saved only after the last paragraph: when every
    call is answered, python-docx accepts every answer and the save fails,
    the run raises the error of the save, and every request of the
    document has been sent by then. *)
Theorem save_failure_after_all_requests (W : Tradutor.world)
    (input_path target_language endpoint subscription_key : list N)
    (region output_path : option (list N)) (doc : list (list N))
    (st : Tradutor.state) (e : exn) :
  Tradutor.isfile W input_path = true →
  Tradutor.load_document W input_path = Ok doc →
  every_step_succeeds W doc target_language endpoint subscription_key region
    (Tradutor.calls st) = true →
  Tradutor.save_error W
    (Tradutor.output_path_for input_path target_language output_path)
  = Some e →
  ∃ st',
    Tradutor.translate_document W input_path target_language endpoint
      subscription_key region output_path st = (Raise e, st')
    ∧ Tradutor.calls st'
      = Tradutor.calls st
        ++ requests_for target_language endpoint subscription_key region doc
    ∧ bodies (drop (length (Tradutor.calls st)) (Tradutor.calls st'))
      = texts_to_translate doc.
Proof.
  intros Hfile Hload Hall Hsave.
  destruct (translate_paragraphs_total W target_language endpoint
              subscription_key region doc [] st Hall) as (out & st1 & Hloop).
  rewrite (translate_document_run _ _ _ _ _ _ _ doc) by done.
  rewrite Hloop. simpl. rewrite Hsave.
  exists st1. split; [done|].
  apply translate_paragraphs_ok in Hloop as [-> _].
  split; [done|].
  rewrite drop_app_length. apply bodies_requests_for.
Qed.

Lemma save_failure_after_all_requests_witness :
  ∃ st',
    Tradutor.translate_document unwritable_world (lit "report.docx")
      (lit "pt-br") (lit "https://api.example/") (lit "k") None None
      Tradutor.init = (Raise OSError, st')
    ∧ bodies (drop 0 (Tradutor.calls st')) = [lit "Hello"; lit "World"].
Proof.
  destruct (save_failure_after_all_requests unwritable_world
              (lit "report.docx") (lit "pt-br") (lit "https://api.example/")
              (lit "k") None None sample_doc Tradutor.init OSError)
    as (st' & Hrun & _ & Hbodies);
    [vm_compute; reflexivity..|].
  exists st'. split; [exact Hrun|exact Hbodies].
Defined.
